(** * koishi-plugin-messages: the channel synchronisation core

    A shallow embedding of [packages/core/src/channel.ts] (class
    [SyncChannel]) and [packages/core/src/index.ts] (class
    [MessageService]), followed by the properties of the design document
    that are checked against it.

    Conventions.
    - A promise that has settled is an [Outcome]: [Resolved v], [Rejected e],
      or [Pending] when the awaited party never answers.
    - Every [async] method is a function from the world before the call to
      its outcome and the world after the call (mutations made before a
      throw are kept, as in JavaScript).
    - The collaborators that are not part of the repository (the bot, the
      database driver) are scripted: the world carries the replies they are
      going to give, and the calls consume them in order. The clock, the
      channel table and the [config] property of the service are parameters
      ([Env]); [constructed] gives the environment of the service that the
      constructor of [index.ts] builds.
    - Strings are [string], JavaScript numbers that hold millisecond time
      stamps are [Z], a value that may be [undefined] is an [option]. *)

From Stdlib Require Import ZArith String List Bool Lia Sorted.
From stdpp Require Import gmap strings list.

Local Open Scope Z_scope.

(** ** Data model *)

(** [enum SyncStatus] *)
Inductive SyncStatus := SYNCING | SYNCED | FAILED.

Definition SyncStatus_eqb (a b : SyncStatus) : bool :=
  match a, b with
  | SYNCING, SYNCING | SYNCED, SYNCED | FAILED, FAILED => true
  | _, _ => false
  end.

(** What a rejected promise or a [throw] carries. [TypeError] is the
    run-time error of reading a property of [undefined]. *)
Inductive Error :=
| TypeError
| RemoteError (code : nat)
| StoreError (code : nat).

Inductive Outcome (A : Type) :=
| Resolved (a : A)
| Rejected (e : Error)
| Pending.
Arguments Resolved {A} a.
Arguments Rejected {A} e.
Arguments Pending {A}.

(** [Session] and [Universal.Message], restricted to the fields the core
    reads. The buffer of a channel holds both kinds of object. *)
Module Session.
Record t := mk {
  platform : string;
  guildId : string;
  channelId : string;
  selfId : string;
  messageId : string;
  channelName : option string;
  userId : string;
  content : string;
  timestamp : Z
}.

(** Koishi's getter [Session.cid]. *)
Definition cid (s : t) : string := platform s +:+ ":" +:+ channelId s.
End Session.

(** A row of the message table, with the columns [index.ts] declares. *)
Module Message.
Record t := mk {
  id : string;
  content : string;
  platform : string;
  guildId : string;
  messageId : string;
  userId : string;
  timestamp : Z;
  quoteId : string;
  username : string;
  nickname : string;
  channelId : string;
  selfId : string;
  lastUpdated : Z;
  deleted : Z
}.
End Message.

(** [interface ChannelData]. The constructor stores its parameters as they
    come; a parameter the caller leaves out is [undefined], so [channelId]
    is an [option]. *)
Record ChannelData := mkChannelData {
  platform : string;
  guildId : string;
  channelId : option string;
  assignee : option string;
  guildName : option string;
  channelName : option string;
  avatar : option string;
  initial : option string
}.

(** [class SyncChannel]: [_initTask] is [None] until [init] is first called,
    then the settled outcome of [_init]; [_queueTask] is [None] while the
    chain of flushes is fulfilled and [Some e] once a flush has rejected. *)
Record SyncChannel := mkSyncChannel {
  data : ChannelData;
  status : SyncStatus;
  _buffer : list Session.t;
  _initTask : option (Outcome unit);
  _queueTask : option Error
}.

(** The events of [ctx.emit]. The first two are the ones [channel.ts]
    emits, the other three are the ones [index.ts] declares in [Events]. *)
Inductive Notification :=
| chat_channel (channel : ChannelData)
| chat_message (batch : list Message.t) (channel : ChannelData)
| messages_synced (cid : string)
| messages_syncFailed (cid : string) (error : Error)
| messages_syncing (cid : string).

(** The two tables the sources name: [index.ts] declares and updates
    ['message'], [channel.ts] reads and writes ['chat.message']. *)
Record Database := mkDatabase {
  tbl_message : list Message.t;
  tbl_chat_message : list Message.t
}.

(** [interface MessageService.Config]: [maxAge?: number]. *)
Record Config := mkConfig {
  maxAge : option Z
}.

(** What does not change during a call. [Message_adapt] stands for
    [Message.adapt] of [./message], which is not among the sources at hand;
    [config] is the property [this.ctx.messages.config], [undefined] when
    nothing has set it; [bots key] tells whether [ctx.bots[key]] is defined;
    [getChannel p c] is what [database.getChannel(p, c, ['assignee'])]
    resolves with: the assignee of the row, or [None] when the channel table
    has no such row and the call resolves with [undefined]. *)
Record Env := mkEnv {
  Message_adapt : Session.t -> string -> string -> Message.t;
  Date_now : Z;
  config : option Config;
  bots : string -> bool;
  getChannel : string -> string -> option string
}.

(** [constructor(ctx: Context, config: MessageService.Config)]: the body
    calls [super(ctx, 'messages', true)] and declares the table; the
    parameter [config] is stored nowhere, so the service it builds has no
    [config] property, whatever is passed. *)
Definition constructed (given : Config) (env : Env) : Env :=
  mkEnv (Message_adapt env) (Date_now env) None (bots env) (getChannel env).

(** [ctx], with the traces of what the core did to its collaborators
    ([upserts], [emitted], [warned], [requested], all oldest first) and the
    scripts of what the collaborators are going to do ([remote]: the
    replies of [getMessageList]; [faults]: for each coming database
    call, the error it rejects with, if any; [arrivals]: the sessions that concurrent [queue] calls
    bring in while a store write is awaited). [awaiting] counts the
    concurrent [queue] calls whose [ensure] is waiting for the task that is
    running: each of them awaits a promise chained to that task. *)
Record Ctx := mkCtx {
  database : Database;
  upserts : list (list Message.t);
  emitted : list Notification;
  warned : list Error;
  stopped : bool;
  remote : list (Outcome (list Session.t));
  requested : list (option string * option string);
  faults : list (option Error);
  arrivals : list (list Session.t);
  awaiting : nat
}.

Record World := mkWorld {
  self : SyncChannel;
  ctx : Ctx
}.

(** *** Field updates *)

Definition set_assignee (a : option string) (d : ChannelData) : ChannelData :=
  mkChannelData (platform d) (guildId d) (channelId d) a (guildName d)
    (channelName d) (avatar d) (initial d).

Definition set_channelName (n : option string) (d : ChannelData) : ChannelData :=
  mkChannelData (platform d) (guildId d) (channelId d) (assignee d) (guildName d)
    n (avatar d) (initial d).

Definition set_initial (i : option string) (d : ChannelData) : ChannelData :=
  mkChannelData (platform d) (guildId d) (channelId d) (assignee d) (guildName d)
    (channelName d) (avatar d) i.

Definition set_data (d : ChannelData) (c : SyncChannel) : SyncChannel :=
  mkSyncChannel d (status c) (_buffer c) (_initTask c) (_queueTask c).

Definition set_status (s : SyncStatus) (c : SyncChannel) : SyncChannel :=
  mkSyncChannel (data c) s (_buffer c) (_initTask c) (_queueTask c).

Definition set_buffer (b : list Session.t) (c : SyncChannel) : SyncChannel :=
  mkSyncChannel (data c) (status c) b (_initTask c) (_queueTask c).

Definition set_initTask (t : option (Outcome unit)) (c : SyncChannel) : SyncChannel :=
  mkSyncChannel (data c) (status c) (_buffer c) t (_queueTask c).

Definition set_queueTask (t : option Error) (c : SyncChannel) : SyncChannel :=
  mkSyncChannel (data c) (status c) (_buffer c) (_initTask c) t.

Definition set_database (db : Database) (x : Ctx) : Ctx :=
  mkCtx db (upserts x) (emitted x) (warned x) (stopped x) (remote x)
    (requested x) (faults x) (arrivals x) (awaiting x).

Definition set_upserts (u : list (list Message.t)) (x : Ctx) : Ctx :=
  mkCtx (database x) u (emitted x) (warned x) (stopped x) (remote x)
    (requested x) (faults x) (arrivals x) (awaiting x).

Definition set_emitted (e : list Notification) (x : Ctx) : Ctx :=
  mkCtx (database x) (upserts x) e (warned x) (stopped x) (remote x)
    (requested x) (faults x) (arrivals x) (awaiting x).

Definition set_warned (l : list Error) (x : Ctx) : Ctx :=
  mkCtx (database x) (upserts x) (emitted x) l (stopped x) (remote x)
    (requested x) (faults x) (arrivals x) (awaiting x).

Definition set_stopped (b : bool) (x : Ctx) : Ctx :=
  mkCtx (database x) (upserts x) (emitted x) (warned x) b (remote x)
    (requested x) (faults x) (arrivals x) (awaiting x).

Definition set_remote (r : list (Outcome (list Session.t))) (x : Ctx) : Ctx :=
  mkCtx (database x) (upserts x) (emitted x) (warned x) (stopped x) r
    (requested x) (faults x) (arrivals x) (awaiting x).

Definition set_requested (r : list (option string * option string)) (x : Ctx) : Ctx :=
  mkCtx (database x) (upserts x) (emitted x) (warned x) (stopped x) (remote x)
    r (faults x) (arrivals x) (awaiting x).

Definition set_faults (f : list (option Error)) (x : Ctx) : Ctx :=
  mkCtx (database x) (upserts x) (emitted x) (warned x) (stopped x) (remote x)
    (requested x) f (arrivals x) (awaiting x).

Definition set_arrivals (a : list (list Session.t)) (x : Ctx) : Ctx :=
  mkCtx (database x) (upserts x) (emitted x) (warned x) (stopped x) (remote x)
    (requested x) (faults x) a (awaiting x).

Definition set_awaiting (n : nat) (x : Ctx) : Ctx :=
  mkCtx (database x) (upserts x) (emitted x) (warned x) (stopped x) (remote x)
    (requested x) (faults x) (arrivals x) n.

Definition on_self (f : SyncChannel -> SyncChannel) (w : World) : World :=
  mkWorld (f (self w)) (ctx w).

Definition on_ctx (f : Ctx -> Ctx) (w : World) : World :=
  mkWorld (self w) (f (ctx w)).

(** ** The outcome monad of the asynchronous methods *)

Definition Task (A : Type) : Type := World -> Outcome A * World.

Definition ret {A} (a : A) : Task A := fun w => (Resolved a, w).

Definition throw {A} (e : Error) : Task A := fun w => (Rejected e, w).

Definition bind {A B} (m : Task A) (k : A -> Task B) : Task B :=
  fun w =>
    match m w with
    | (Resolved a, w1) => k a w1
    | (Rejected e, w1) => (Rejected e, w1)
    | (Pending, w1) => (Pending, w1)
    end.

Notation "'let*' x ':=' m 'in' k" := (bind m (fun x => k))
  (at level 10, x name, m at level 100, k at level 200).

(** ** JavaScript helpers *)

(** Truthiness of a [string | undefined]: [undefined] and [''] are falsy. *)
Definition truthy (o : option string) : bool :=
  match o with
  | Some s => negb (String.eqb s EmptyString)
  | None => false
  end.

(** [o !== s] for [o : string | undefined] and [s : string]. *)
Definition differs (o : option string) (s : string) : bool :=
  match o with
  | Some a => negb (String.eqb a s)
  | None => true
  end.

(** A template literal prints [undefined] by its name. *)
Definition interpolate (o : option string) : string :=
  match o with
  | Some s => s
  | None => "undefined"
  end.

(** ** The database driver *)

(** One call to the driver: it takes the next entry of the fault script. *)
Definition db_call : Task unit :=
  fun w =>
    match faults (ctx w) with
    | [] => (Resolved tt, w)
    | None :: rest => (Resolved tt, on_ctx (set_faults rest) w)
    | Some e :: rest => (Rejected e, on_ctx (set_faults rest) w)
    end.

(** [.where(pick(this.data, ['platform', 'channelId']))]: [pick] leaves out
    a key whose value is [undefined], so a channel without [channelId] asks
    for every row of its platform. *)
Definition where_channel (d : ChannelData) (m : Message.t) : bool :=
  String.eqb (Message.platform m) (platform d)
  && match channelId d with
     | Some c => String.eqb (Message.channelId m) c
     | None => true
     end.

Fixpoint insert_by_id (m : Message.t) (rows : list Message.t) : list Message.t :=
  match rows with
  | [] => [m]
  | r :: rest =>
      if String.leb (Message.id m) (Message.id r) then m :: r :: rest
      else r :: insert_by_id m rest
  end.

(** [.orderBy('id', 'asc')] *)
Definition orderBy_id (rows : list Message.t) : list Message.t :=
  fold_right insert_by_id [] rows.

(** [select('chat.message').where(..).orderBy('id', dir).limit(n).execute()] *)
Definition select_rows (d : ChannelData) (desc : bool) (limit : nat)
    (db : Database) : list Message.t :=
  let sorted := orderBy_id (List.filter (where_channel d) (tbl_chat_message db)) in
  firstn limit (if desc then rev sorted else sorted).

Definition select (desc : bool) (limit : nat) : Task (list Message.t) :=
  fun w =>
    match db_call w with
    | (Resolved _, w1) =>
        (Resolved (select_rows (data (self w1)) desc limit (database (ctx w1))), w1)
    | (Rejected e, w1) => (Rejected e, w1)
    | (Pending, w1) => (Pending, w1)
    end.

(** Modelled from the spec: the declaration of the table ['chat.message']
    is not among the sources; the design document keys the upsert by
    (platform, channelId, messageId). *)
Definition same_key (a b : Message.t) : bool :=
  String.eqb (Message.platform a) (Message.platform b)
  && String.eqb (Message.channelId a) (Message.channelId b)
  && String.eqb (Message.messageId a) (Message.messageId b).

(** [database.upsert]: a row that has the key of a stored row takes its
    place, any other row is added. *)
Fixpoint upsert_row (r : Message.t) (rows : list Message.t) : list Message.t :=
  match rows with
  | [] => [r]
  | x :: rest => if same_key r x then r :: rest else x :: upsert_row r rest
  end.

Definition upsert_rows (rows batch : list Message.t) : list Message.t :=
  fold_left (fun acc r => upsert_row r acc) batch rows.

(** [database.set(table, query, update)]: every row the query selects gets
    the listed columns overwritten. *)
Definition set_rows (query : Message.t -> bool) (update : Message.t -> Message.t)
    (rows : list Message.t) : list Message.t :=
  map (fun r => if query r then update r else r) rows.

(** ** [class SyncChannel] *)

Definition SyncChannel_new (platform guildId : string) (channelId : option string)
    : SyncChannel :=
  mkSyncChannel
    (mkChannelData platform guildId channelId None None None None None)
    SYNCING [] None None.

(** [accept(session)]: the result is [true] when the session is turned
    away ([return true]) and [false] otherwise (the method falls off its
    end, and [undefined] is falsy). *)
Definition accept (session : Session.t) (c : SyncChannel) : bool * SyncChannel :=
  let rename (c : SyncChannel) : SyncChannel :=
    if truthy (Session.channelName session)
    then set_data (set_channelName (Session.channelName session) (data c)) c
    else c in
  if negb (truthy (assignee (data c))) then
    (false, rename (set_data (set_assignee (Some (Session.selfId session)) (data c)) c))
  else if differs (assignee (data c)) (Session.selfId session) then
    (true, c)
  else
    (false, rename c).

(** The part of [queue] that runs before its first suspension:
    [if (this.accept(session)) return; this._buffer.push(session)]. *)
Definition arrive (session : Session.t) (c : SyncChannel) : SyncChannel :=
  let (rejected, c1) := accept session c in
  if rejected then c1 else set_buffer (_buffer c1 ++ [session]) c1.

Definition arrive_all (sessions : list Session.t) (c : SyncChannel) : SyncChannel :=
  fold_left (fun c s => arrive s c) sessions c.

(** What concurrent [queue] calls do while the running task is suspended on
    a store write: each runs [accept] and, when let in, pushes its session
    and calls [ensure], where it waits for the running task (it awaits
    [_initTask], or chains itself to [_queueTask]). *)
Definition interleave : Task unit :=
  fun w =>
    match arrivals (ctx w) with
    | [] => (Resolved tt, w)
    | sessions :: rest =>
        let c := arrive_all sessions (self w) in
        let pushed := (length (_buffer c) - length (_buffer (self w)))%nat in
        (Resolved tt,
         mkWorld c (set_awaiting (awaiting (ctx w) + pushed) (set_arrivals rest (ctx w))))
    end.

(** A call that is awaited: the concurrent calls come in before it settles,
    whatever it settles with. *)
Definition awaited {A} (m : Task A) : Task A :=
  fun w =>
    let (settled, w1) := m w in
    (settled, snd (interleave w1)).

(** [await this.ctx.database.upsert('chat.message', rows)] *)
Definition database_upsert (rows : list Message.t) : Task unit :=
  awaited
    (let* _ := db_call in
     fun w =>
       let x := ctx w in
       let db := mkDatabase (tbl_message (database x))
                   (upsert_rows (tbl_chat_message (database x)) rows) in
       (Resolved tt,
        on_ctx (fun x => set_upserts (upserts x ++ [rows]) (set_database db x)) w)).

(** [x < limit] where [limit] may be [undefined]: a comparison with
    [undefined] is false. *)
Definition kept (env : Env) (cfg : Config) (m : Message.t) : bool :=
  match maxAge cfg with
  | Some limit => Date_now env - Message.timestamp m <? limit
  | None => false
  end.

(** The retention test of [adapt]:
    [Date.now() - +message.timestamp < this.ctx.messages.config.maxAge].
    Reading [maxAge] of a [config] that is [undefined] throws a TypeError:
    the result is then [None]. *)
Definition retained (env : Env) (m : Message.t) : option bool :=
  match config env with
  | Some cfg => Some (kept env cfg m)
  | None => None
  end.

(** [array.filter(test)] for a test that can throw: the first call that
    throws ends the method; on an empty array the test is never called. *)
Fixpoint Array_filter {A} (test : A -> option bool) (l : list A) : option (list A) :=
  match l with
  | [] => Some []
  | a :: rest =>
      match test a with
      | None => None
      | Some keep =>
          match Array_filter test rest with
          | None => None
          | Some rest' => Some (if keep then a :: rest' else rest')
          end
      end
  end.

(** [adapt(buffer)]: the filter runs before the driver is called, so a
    throw of the retention test rejects before any write. *)
Definition adapt (env : Env) (buffer : list Session.t) : Task (list Message.t) :=
  fun w =>
    let d :=
      map (fun session =>
             Message_adapt env session (platform (data (self w))) (guildId (data (self w))))
          buffer in
    match Array_filter (retained env) d with
    | Some rows =>
        (let* _ := database_upsert rows in
         ret d) w
    | None => (Rejected TypeError, w)
    end.

Definition emit (n : Notification) : Task unit :=
  fun w => (Resolved tt, on_ctx (fun x => set_emitted (emitted x ++ [n]) x) w).

(** [flush()]: one turn of the loop per unit of fuel. *)
Fixpoint flush_loop (env : Env) (fuel : nat) (w : World) : Outcome unit * World :=
  match _buffer (self w) with
  | [] => (Resolved tt, w)
  | batch =>
      match fuel with
      | O => (Pending, w)
      | S fuel' =>
          match adapt env batch (on_self (set_buffer []) w) with
          | (Resolved d, w1) =>
              match emit (chat_message d (data (self w1))) w1 with
              | (_, w2) => flush_loop env fuel' w2
              end
          | (Rejected e, w1) => (Rejected e, w1)
          | (Pending, w1) => (Pending, w1)
          end
      end
  end.

(** Every turn of the loop uses up one entry of the arrival script, and a
    turn that brings in nothing is the last one. *)
Definition flush (env : Env) : Task unit :=
  fun w => flush_loop env (S (length (arrivals (ctx w)))) w.

(** [await bot.getMessageList(channelId, next)] where [bot] tells whether
    [this.ctx.bots[..]] was defined. *)
Definition getMessageList (bot : bool) (channelId next : option string)
    : Task (list Session.t) :=
  fun w =>
    if bot then
      let w1 := on_ctx (fun x => set_requested (requested x ++ [(channelId, next)]) x) w in
      match remote (ctx w1) with
      | [] => (Pending, w1)
      | reply :: rest => (reply, on_ctx (set_remote rest) w1)
      end
    else (Rejected TypeError, w).

(** The key of [this.ctx.bots[`${platform}:${assignee}`]]. *)
Definition bot_key (d : ChannelData) : string :=
  platform d +:+ ":" +:+ interpolate (assignee d).

(** The [for] loop of [syncHistory] over the reversed page: the result is
    [true] when [break outer] was taken. *)
Fixpoint scan (rear : string) (reversed buffer : list Session.t)
    : bool * list Session.t :=
  match reversed with
  | [] => (false, buffer)
  | message :: rest =>
      if String.eqb (Session.messageId message) rear then (true, buffer)
      else scan rear rest (message :: buffer)
  end.

(** The [outer: while (true)] loop of [syncHistory]. *)
Fixpoint syncHistory_loop (fuel : nat) (bot : bool) (channelId : option string)
    (rear : string) (next : option string) (w : World) : Outcome unit * World :=
  match fuel with
  | O => (Pending, w)
  | S fuel' =>
      match getMessageList bot channelId next w with
      | (Resolved page, w1) =>
          match page with
          | [] => (Rejected TypeError, w1)
          | first :: _ =>
              let next' := Some (Session.messageId first) in
              let (found, buffer') := scan rear (rev page) (_buffer (self w1)) in
              let w2 := on_self (set_buffer buffer') w1 in
              if found then (Resolved tt, w2)
              else syncHistory_loop fuel' bot channelId rear next' w2
          end
      | (Rejected e, w1) => (Rejected e, w1)
      | (Pending, w1) => (Pending, w1)
      end
  end.

(** [syncHistory(rear, next)]. Every turn of the loop takes one reply of
    the remote script, so the length of the script bounds the turns. *)
Definition syncHistory (env : Env) (rear : string) (next : option string) : Task unit :=
  fun w =>
    let d := data (self w) in
    (let* _ := syncHistory_loop (S (length (remote (ctx w))))
                 (bots env (bot_key d)) (channelId d) rear next in
     flush env) w.

(** The [while (true)] loop of [getHistory]; [buffer] is the local array
    the pages are pushed to. *)
Fixpoint getHistory_loop (fuel : nat) (bot : bool) (channelId : option string)
    (count : nat) (next : option string) (buffer : list Session.t) (w : World)
    : Outcome (list Session.t) * World :=
  match fuel with
  | O => (Pending, w)
  | S fuel' =>
      match getMessageList bot channelId next w with
      | (Resolved page, w1) =>
          let buffer' := buffer ++ page in
          if (length page =? 0)%nat || (count <=? length buffer')%nat then
            (Resolved buffer', w1)
          else
            getHistory_loop fuel' bot channelId count
              (option_map Session.messageId (head page)) buffer' w1
      | (Rejected e, w1) => (Rejected e, w1)
      | (Pending, w1) => (Pending, w1)
      end
  end.

(** [getHistory(count, next)]. A page that does not end the loop adds at
    least one message, so [count] turns and one more are enough. *)
Definition getHistory (env : Env) (count : nat) (next : option string)
    : Task (list Message.t) :=
  fun w =>
    let d := data (self w) in
    (let* buffer := getHistory_loop (S count) (bots env (bot_key d)) (channelId d)
                      count next [] in
     adapt env (rev buffer)) w.

(** [_init(session)]. Both queries of the [Promise.all] are issued; the
    first one that rejects decides. *)
Definition _init (env : Env) (session : option Session.t) : Task unit :=
  fun w =>
    let (first, w1) := select false 1 w in
    let (second, w2) := select true 1 w1 in
    match first, second with
    | Resolved oldest, Resolved newest =>
        (let* _ := match head newest with
                   | Some final =>
                       syncHistory env (Message.messageId final)
                         (option_map Session.messageId session)
                   | None => ret tt
                   end in
         let* _ := (fun w => (Resolved tt, on_self (set_status SYNCED) w)) in
         let* _ := (fun w =>
           (Resolved tt,
            on_self (fun c =>
              set_data (set_initial (option_map Message.messageId (head oldest)) (data c)) c)
              w)) in
         fun w => emit (chat_channel (data (self w))) w) w2
    | Rejected e, _ => (Rejected e, w2)
    | Resolved _, Rejected e => (Rejected e, w2)
    | _, _ => (Pending, w2)
    end.

(** [init(session)]: [this._initTask ||= this._init(session)] *)
Definition init (env : Env) (session : option Session.t) : Task unit :=
  fun w =>
    match _initTask (self w) with
    | Some settled => (settled, w)
    | None =>
        let (settled, w1) := _init env session w in
        (settled, on_self (set_initTask (Some settled)) w1)
    end.

(** [ensure(callback)]: the result is [None] where the method returns
    [undefined]. The concurrent [queue] calls that came in while the
    callback ran wait for the same task: when it rejects, the [catch] of each
    of them runs after this one, logs the same error and sets FAILED again. *)
Definition ensure {A} (callback : Task A) : Task (option A) :=
  fun w =>
    if SyncStatus_eqb (status (self w)) FAILED then (Resolved None, w)
    else if stopped (ctx w) then (Resolved None, w)
    else
      match callback (on_ctx (set_awaiting 0) w) with
      | (Resolved a, w1) => (Resolved (Some a), w1)
      | (Rejected error, w1) =>
          (Resolved None,
           on_self (set_status FAILED)
             (on_ctx (fun x => set_warned (warned x ++ repeat error (S (awaiting x))) x)
                w1))
      | (Pending, w1) => (Pending, w1)
      end.

(** [this._queueTask = this._queueTask.then(() => this.flush())]: a chain
    that has rejected skips the handler and stays rejected. *)
Definition then_flush (env : Env) : Task unit :=
  fun w =>
    match _queueTask (self w) with
    | Some e => (Rejected e, w)
    | None =>
        match flush env w with
        | (Rejected e, w1) => (Rejected e, on_self (set_queueTask (Some e)) w1)
        | settled => settled
        end
    end.

(** The callback [queue] hands to [ensure]. *)
Definition queue_callback (env : Env) (session : Session.t) : Task unit :=
  let* _ := (fun w =>
    if SyncStatus_eqb (status (self w)) SYNCING then init env (Some session) w
    else (Resolved tt, w)) in
  fun w =>
    if SyncStatus_eqb (status (self w)) SYNCED then then_flush env w
    else (Resolved tt, w).

(** [queue(session)], run until the task it starts has settled. *)
Definition queue (env : Env) (session : Session.t) : Task unit :=
  fun w =>
    let (rejected, c) := accept session (self w) in
    if rejected then (Resolved tt, mkWorld c (ctx w))
    else
      (let* _ := ensure (queue_callback env session) in
       ret tt)
        (mkWorld (set_buffer (_buffer c ++ [session]) c) (ctx w)).

(** [getMessages(count)] *)
Definition getMessages (env : Env) (count : nat) : Task (list Message.t) :=
  let* newest_first := select true count in
  let messages := rev newest_first in
  if (length messages <? count)%nat then
    let* history := getHistory env (count - length messages)
                      (option_map Message.messageId (head messages)) in
    ret (history ++ messages)
  else ret messages.

(** ** [class MessageService] *)

Record MessageService := mkMessageService {
  _channels : gmap string SyncChannel;
  service_ctx : Ctx
}.

Definition ServiceTask (A : Type) : Type := MessageService -> Outcome A * MessageService.

(** One database call made by the service itself. *)
Definition service_db_call : ServiceTask unit :=
  fun s =>
    match faults (service_ctx s) with
    | [] => (Resolved tt, s)
    | None :: rest => (Resolved tt, mkMessageService (_channels s) (set_faults rest (service_ctx s)))
    | Some e :: rest => (Rejected e, mkMessageService (_channels s) (set_faults rest (service_ctx s)))
    end.

(** [this._channels[session.cid] ||= new SyncChannel(this.ctx, session.platform,
    session.channelId)]: the call passes two strings to a constructor that
    takes three, so the third parameter is [undefined]. *)
Definition channel_of (session : Session.t) (channels : gmap string SyncChannel)
    : gmap string SyncChannel :=
  match channels !! Session.cid session with
  | Some _ => channels
  | None =>
      <[Session.cid session :=
          SyncChannel_new (Session.platform session) (Session.channelId session) None]>
        channels
  end.

(** [#onMessage(session)]. Destructuring the [undefined] that [getChannel]
    resolves with for a channel without a row throws a TypeError. The call
    of [queue] is not awaited: the method fulfils whatever becomes of the
    task that [queue] starts, and the service it leaves is given as it is
    once that task has settled. *)
Definition onMessage (env : Env) (session : Session.t) : ServiceTask unit :=
  fun s =>
    match service_db_call s with
    | (Resolved _, s1) =>
        match getChannel env (Session.platform session) (Session.channelId session) with
        | None => (Rejected TypeError, s1)
        | Some assignee =>
            if negb (String.eqb assignee (Session.selfId session)) then (Resolved tt, s1)
            else
              let channels := channel_of session (_channels s1) in
              match channels !! Session.cid session with
              | Some c =>
                  let w := snd (queue env session (mkWorld c (service_ctx s1))) in
                  (Resolved tt,
                   mkMessageService (<[Session.cid session := self w]> channels) (ctx w))
              | None => (Rejected TypeError, mkMessageService channels (service_ctx s1))
              end
        end
    | (Rejected e, s1) => (Rejected e, s1)
    | (Pending, s1) => (Pending, s1)
    end.

(** The query [{ messageId: session.messageId, platform: session.platform }] *)
Definition by_message (session : Session.t) (m : Message.t) : bool :=
  String.eqb (Message.messageId m) (Session.messageId session)
  && String.eqb (Message.platform m) (Session.platform session).

(** The update [{ deleted: 1, lastUpdated: new Date() }] *)
Definition mark_deleted (env : Env) (m : Message.t) : Message.t :=
  Message.mk (Message.id m) (Message.content m) (Message.platform m)
    (Message.guildId m) (Message.messageId m) (Message.userId m)
    (Message.timestamp m) (Message.quoteId m) (Message.username m)
    (Message.nickname m) (Message.channelId m) (Message.selfId m)
    (Date_now env) 1.

(** The update [{ content: session.content, lastUpdated: new Date() }] *)
Definition mark_updated (env : Env) (session : Session.t) (m : Message.t) : Message.t :=
  Message.mk (Message.id m) (Session.content session) (Message.platform m)
    (Message.guildId m) (Message.messageId m) (Message.userId m)
    (Message.timestamp m) (Message.quoteId m) (Message.username m)
    (Message.nickname m) (Message.channelId m) (Message.selfId m)
    (Date_now env) (Message.deleted m).

(** [await this.ctx.database.set('message', query, update)] *)
Definition database_set (query : Message.t -> bool) (update : Message.t -> Message.t)
    : ServiceTask unit :=
  fun s =>
    match service_db_call s with
    | (Resolved _, s1) =>
        let x := service_ctx s1 in
        let db := mkDatabase (set_rows query update (tbl_message (database x)))
                    (tbl_chat_message (database x)) in
        (Resolved tt, mkMessageService (_channels s1) (set_database db x))
    | settled => settled
    end.

(** The listener of ['message-deleted'] *)
Definition onMessageDeleted (env : Env) (session : Session.t) : ServiceTask unit :=
  database_set (by_message session) (mark_deleted env).

(** The listener of ['message-updated'] *)
Definition onMessageUpdated (env : Env) (session : Session.t) : ServiceTask unit :=
  database_set (by_message session) (mark_updated env session).

(** [stop()] *)
Definition stop : ServiceTask unit :=
  fun s => (Resolved tt, mkMessageService (_channels s) (set_stopped true (service_ctx s))).

(** [queue] called for each session of a list in turn. *)
Fixpoint queue_all (env : Env) (sessions : list Session.t) (w : World) : World :=
  match sessions with
  | [] => w
  | s :: rest => queue_all env rest (snd (queue env s w))
  end.

(** ** Vocabulary of the properties *)

(** The identity of a channel never changes, and neither does an assignee
    that is a non-empty string. *)
Definition evolves (d d' : ChannelData) : Prop :=
  platform d' = platform d /\ guildId d' = guildId d /\ channelId d' = channelId d
  /\ (truthy (assignee d) = true -> assignee d' = assignee d).

(** A method respects a relation between worlds when the world it leaves is
    related to the world it was called in. *)
Definition respects (R : World -> World -> Prop) {A} (m : Task A) : Prop :=
  forall w, R w (snd (m w)).

Definition keeps_identity (w w' : World) : Prop :=
  evolves (data (self w)) (data (self w')).

(** The notifications [channel.ts] sends. *)
Definition is_chat (n : Notification) : bool :=
  match n with
  | chat_channel _ | chat_message _ _ => true
  | _ => false
  end.

Definition emits_chat_only (w w' : World) : Prop :=
  exists added,
    emitted (ctx w') = emitted (ctx w) ++ added /\ forallb is_chat added = true.

(** ** Sample data

    A concrete environment and a few sessions, used to run the methods. *)

Definition sample_adapt (s : Session.t) (p g : string) : Message.t :=
  Message.mk (Session.messageId s) (Session.content s) p g (Session.messageId s)
    (Session.userId s) (Session.timestamp s) EmptyString EmptyString EmptyString (Session.channelId s)
    (Session.selfId s) (Session.timestamp s) 0.

Definition sample_config : Config := mkConfig (Some 100).

(** A context made by hand, whose service carries a [config]. *)
Definition sample_env : Env :=
  mkEnv sample_adapt 1000 (Some sample_config) (fun _ => true)
    (fun _ _ => Some "A"%string).

(** The same context with the service as [index.ts] constructs it. *)
Definition built_env : Env := constructed sample_config sample_env.

Definition event (self id : string) (time : Z) : Session.t :=
  Session.mk "p" "g" "c" self id None "u" "hi" time.

Definition idle_ctx : Ctx :=
  mkCtx (mkDatabase [] []) [] [] [] false [] [] [] [] 0.

Definition fresh_channel : SyncChannel := SyncChannel_new "p" "g" (Some "c"%string).

Definition fresh_world : World := mkWorld fresh_channel idle_ctx.

(** A channel that failed: the first query of its initialisation rejected. *)
Definition failed_world : World :=
  snd (queue sample_env (event "A" "m9" 950)
         (mkWorld fresh_channel (set_faults [Some (StoreError 1)] idle_ctx))).

(** A store that holds [m3] and a remote whose history ends before it. *)
Definition exhausted_world : World :=
  mkWorld fresh_channel
    (mkCtx (mkDatabase [] [sample_adapt (event "A" "m3" 930) "p" "g"]) [] [] [] false
       [Resolved [event "A" "m5" 950; event "A" "m6" 960]; Resolved []] [] [] [] 0).

Definition idle_service : MessageService := mkMessageService ∅ idle_ctx.

(** A session of guild [g], channel [c], for which the channel table names
    the sender as assignee. *)
Definition guild_event : Session.t := event "A" "m5" 950.

(** ** The effect of one store write and of one turn of [flush] *)

(** The records [adapt] makes of a buffer. *)
Definition adapted (env : Env) (c : SyncChannel) (buffer : list Session.t)
    : list Message.t :=
  map (fun session => Message_adapt env session (platform (data c)) (guildId (data c)))
      buffer.

(** The world after [adapt(buffer)] when the service has the config [cfg]
    and the driver accepts the write: the retained records are written, and
    the sessions that came in meanwhile have been through [accept] and, if
    let through, are in the buffer. *)
Definition after_adapt (env : Env) (cfg : Config) (buffer : list Session.t) (w : World)
    : World :=
  let x := ctx w in
  let rows := List.filter (kept env cfg) (adapted env (self w) buffer) in
  let c := arrive_all (hd [] (arrivals x)) (self w) in
  mkWorld c
    (mkCtx
       (mkDatabase (tbl_message (database x))
          (upsert_rows (tbl_chat_message (database x)) rows))
       (upserts x ++ [rows]) (emitted x) (warned x) (stopped x) (remote x)
       (requested x) (tl (faults x)) (tl (arrivals x))
       (awaiting x + (length (_buffer c) - length (_buffer (self w))))).

(** The world after one turn of the loop of [flush]: the whole buffer is
    taken, adapted and written, then the notification is sent. *)
Definition after_turn (env : Env) (cfg : Config) (w : World) : World :=
  let w1 := after_adapt env cfg (_buffer (self w)) (on_self (set_buffer []) w) in
  on_ctx (fun x =>
    set_emitted
      (emitted x ++ [chat_message (adapted env (self w) (_buffer (self w))) (data (self w1))])
      x) w1.

(** A synced channel of assignee [A] with two sessions in its buffer, the
    first one older than the retention window, while two more sessions come
    in during the first store write, one of them from another sender. *)
Definition busy_world : World :=
  mkWorld
    (mkSyncChannel
       (mkChannelData "p" "g" (Some "c"%string) (Some "A"%string) None None None None)
       SYNCED [event "A" "m1" 800; event "A" "m2" 950] (Some (Resolved tt)) None)
    (set_arrivals [[event "A" "m3" 960; event "B" "m4" 970]] idle_ctx).

Definition stored (id text : string) : Message.t :=
  Message.mk id text "p" "g" id "u" 900 EmptyString EmptyString EmptyString "c" "A" 900 0.

(** A service whose only channel has failed, with two rows in ['message']. *)
Definition failed_service : MessageService :=
  mkMessageService {[ "p:c"%string := self failed_world ]}
    (set_database (mkDatabase [stored "m1" "one"; stored "m2" "two"] [stored "m1" "one"])
       idle_ctx).

Definition edit_event : Session.t :=
  Session.mk "p" "g" "c" "A" "m1" None "u" "new" 990.

(** ** Vocabulary of the backfill *)

(** Strictly increasing time stamps: oldest first. *)
Fixpoint increasing (times : list Z) : bool :=
  match times with
  | [] => true
  | a :: rest =>
      match rest with
      | [] => true
      | b :: _ => (a <? b) && increasing rest
      end
  end.

Definition has_rear (rear : string) (page : list Session.t) : bool :=
  existsb (fun m => String.eqb (Session.messageId m) rear) page.

(** The messages met before the first one whose id is [rear]. *)
Fixpoint until_rear (rear : string) (l : list Session.t) : list Session.t :=
  match l with
  | [] => []
  | m :: rest =>
      if String.eqb (Session.messageId m) rear then [] else m :: until_rear rear rest
  end.

(** The messages of a page that stand after the last one whose id is
    [rear], in the order of the page. *)
Definition after_rear (rear : string) (page : list Session.t) : list Session.t :=
  rev (until_rear rear (rev page)).

(** The calls [getMessageList(channelId, next)] that fetch the given pages:
    the cursor of a call is the id of the first message of the page before. *)
Fixpoint cursors (channelId next : option string) (pages : list (list Session.t))
    : list (option string * option string) :=
  match pages with
  | [] => []
  | page :: rest =>
      (channelId, next)
      :: cursors channelId (option_map Session.messageId (head page)) rest
  end.

(** The loop of [syncHistory], as [syncHistory] starts it. *)
Definition backfill (env : Env) (rear : string) (next : option string) : Task unit :=
  fun w =>
    syncHistory_loop (S (length (remote (ctx w)))) (bots env (bot_key (data (self w))))
      (channelId (data (self w))) rear next w.

(** Scenario B of the design document: the store holds [m1..m3], session
    [m7] comes in, and the remote answers with [m6, m5, m4] and then
    [m3, m2], each page newest first. *)
Definition scenario_B_ctx : Ctx :=
  mkCtx
    (mkDatabase []
       [sample_adapt (event "A" "m1" 910) "p" "g";
        sample_adapt (event "A" "m2" 920) "p" "g";
        sample_adapt (event "A" "m3" 930) "p" "g"])
    [] [] [] false
    [Resolved [event "A" "m6" 960; event "A" "m5" 950; event "A" "m4" 940];
     Resolved [event "A" "m3" 930; event "A" "m2" 920]]
    [] [] [] 0.

Definition scenario_B : World := mkWorld fresh_channel scenario_B_ctx.

(** The same channel once [queue] has let [m7] in. *)
Definition scenario_B_buffered : World :=
  mkWorld (arrive (event "A" "m7" 970) fresh_channel) scenario_B_ctx.

(** The same scenario with the pages oldest first: [m4, m5, m6] and then
    [m2, m3]. *)
Definition scenario_B_ascending : World :=
  mkWorld (arrive (event "A" "m7" 970) fresh_channel)
    (set_remote
       [Resolved [event "A" "m4" 940; event "A" "m5" 950; event "A" "m6" 960];
        Resolved [event "A" "m2" 920; event "A" "m3" 930]]
       scenario_B_ctx).

(** ** Vocabulary of the history requests *)




(** The rows of the channel in ascending order of [id], and the rows
    [getMessages(count)] reads from the store, once reversed. *)
Definition channel_rows (w : World) : list Message.t :=
  orderBy_id (List.filter (where_channel (data (self w))) (tbl_chat_message (database (ctx w)))).

Definition local_rows (count : nat) (w : World) : list Message.t :=
  rev (select_rows (data (self w)) true count (database (ctx w))).

(** Scenario B with the pages oldest first, before [m7] is queued. *)
Definition scenario_B_fresh : World :=
  mkWorld fresh_channel (ctx scenario_B_ascending).

(** Scenario D of the design document: the store holds [m3] and the write
    of the backfilled history rejects. *)
Definition scenario_D : World :=
  mkWorld fresh_channel
    (mkCtx (mkDatabase [] [sample_adapt (event "A" "m3" 930) "p" "g"]) [] [] [] false
       [Resolved [event "A" "m3" 930; event "A" "m8" 980]] []
       [None; None; Some (StoreError 7)] [] 0).

(** ** Vocabulary of the further properties *)

(** [ensure] runs nothing on a channel that has failed or once the service
    has been stopped. *)
Definition halted (w : World) : Prop :=
  status (self w) = FAILED \/ stopped (ctx w) = true.

Definition from_assignee (a : string) (s : Session.t) : bool :=
  String.eqb (Session.selfId s) a.

(** A synced channel of assignee [A] after [stop()]. *)
Definition stopped_world : World :=
  mkWorld
    (mkSyncChannel
       (mkChannelData "p" "g" (Some "c"%string) (Some "A"%string) None None None None)
       SYNCED [] (Some (Resolved tt)) None)
    (set_stopped true idle_ctx).

(** A registry that holds the failed channel and a synced one. *)
Definition two_channel_service : MessageService :=
  mkMessageService
    (<[ "p:c"%string := self failed_world ]>
       {[ "p:d"%string := self stopped_world ]})
    idle_ctx.

(** What a store write and a flush leave alone: the control state of the
    channel, the remote and its request log, the error log, the stop flag and
    the table ['message']. *)
Definition quiet (w w' : World) : Prop :=
  status (self w') = status (self w)
  /\ _initTask (self w') = _initTask (self w)
  /\ _queueTask (self w') = _queueTask (self w)
  /\ remote (ctx w') = remote (ctx w)
  /\ requested (ctx w') = requested (ctx w)
  /\ warned (ctx w') = warned (ctx w)
  /\ stopped (ctx w') = stopped (ctx w)
  /\ tbl_message (database (ctx w')) = tbl_message (database (ctx w)).

(** The initialisation has been started, or is no longer due. *)
Definition initialised (c : SyncChannel) : Prop :=
  _initTask c <> None \/ status c <> SYNCING.

(** The end of a successful [_init]: the status becomes SYNCED, [initial]
    is set, and ['chat/channel'] is emitted. *)
Definition ready (i : option string) (w : World) : World :=
  let c := set_data (set_initial i (data (self w))) (set_status SYNCED (self w)) in
  mkWorld c (set_emitted (emitted (ctx w) ++ [chat_channel (data c)]) (ctx w)).

(** The world in which the callback that [queue] hands to [ensure] starts:
    [accept] has let the session in, the session has been pushed, and no
    concurrent call is waiting yet. *)
Definition enqueued (s : Session.t) (w : World) : World :=
  mkWorld
    (set_buffer (_buffer (snd (accept s (self w))) ++ [s]) (snd (accept s (self w))))
    (set_awaiting 0 (ctx w)).

(** What the [catch] of [ensure] does, and after it the [catch] of every
    concurrent call that waited for the same task. *)
Definition caught (e : Error) (w : World) : World :=
  on_self (set_status FAILED)
    (on_ctx (fun x => set_warned (warned x ++ repeat e (S (awaiting x))) x) w).

(** The world at the end of the loop of [syncHistory] that fetched the
    pages [before] and then [final], which holds [rear]. *)
Definition backfilled (rear : string) (next : option string)
    (before : list (list Session.t)) (final : list Session.t)
    (rest : list (Outcome (list Session.t))) (w : World) : World :=
  mkWorld
    (set_buffer (after_rear rear final ++ concat (rev before) ++ _buffer (self w)) (self w))
    (set_remote rest
       (set_requested
          (requested (ctx w)
           ++ cursors (channelId (data (self w))) next (before ++ [final]))
          (ctx w))).

(** A store that holds [m3] for a channel whose bot is not connected. *)
Definition no_bot_env : Env :=
  mkEnv sample_adapt 1000 (Some sample_config) (fun _ => false)
    (fun _ _ => Some "A"%string).

(** The order of the statuses: SYNCING, then SYNCED, then FAILED. *)
Definition rank (s : SyncStatus) : nat :=
  match s with
  | SYNCING => 0
  | SYNCED => 1
  | FAILED => 2
  end.

(** A synced channel whose next store write is going to reject. *)
Definition faulty_world : World :=
  mkWorld
    (mkSyncChannel
       (mkChannelData "p" "g" (Some "c"%string) (Some "A"%string) None None None None)
       SYNCED [] (Some (Resolved tt)) None)
    (set_faults [Some (StoreError 3)] idle_ctx).

(** The records the ['chat/message'] notifications of a trace carry. *)
Fixpoint notified_records (ns : list Notification) : list Message.t :=
  match ns with
  | [] => []
  | chat_message batch _ :: rest => batch ++ notified_records rest
  | _ :: rest => notified_records rest
  end.

(** The sessions of a list that [accept] lets in, in their order. *)
Definition let_in (sessions : list Session.t) (c : SyncChannel) : list Session.t :=
  _buffer (arrive_all sessions (set_buffer [] c)).

(** A method ignores the status when running it on a channel with another
    status gives the same outcome and the same world, up to that status. *)
Definition ignores_status {A} (m : Task A) : Prop :=
  forall st w,
    m (on_self (set_status st) w)
    = (fst (m w), on_self (set_status st) (snd (m w))).

(** The table ['message'] a listener of the service leaves. *)
Definition message_rows (r : Outcome unit * MessageService) : list Message.t :=
  tbl_message (database (service_ctx (snd r))).

(** A later clock. *)
Definition later_env : Env :=
  mkEnv sample_adapt 2000 (Some sample_config) (fun _ => true)
    (fun _ _ => Some "A"%string).

(** ** [packages/chat/src/index.ts] *)

(** [config.whitelist.some(prefix => url.startsWith(prefix))] *)
Definition whitelisted (whitelist : list string) (url : string) : bool :=
  existsb (fun p => String.prefix p url) whitelist.

(** What [get(url, { responseType: 'stream' })] can do: answer with a body,
    fail with an axios error that may carry the response of the upstream
    server, or fail otherwise. *)
Inductive Upstream :=
| upstream_body (body : string)
| axios_error (e : Error) (response : option (nat * string))
| other_error (e : Error).

(** The parts of the Koa context the route sets; a part it leaves alone is
    [None]. *)
Record Reply := mkReply {
  reply_status : option nat;
  reply_body : option string
}.

(** The route ['/chat/proxy/:url']: the result holds the URLs that were
    requested. *)
Definition proxy (whitelist : list string) (get : string -> Upstream) (url : string)
    : Outcome Reply * list string :=
  if negb (whitelisted whitelist url) then
    (Resolved (mkReply (Some 403%nat) None), [])
  else
    match get url with
    | upstream_body body => (Resolved (mkReply None (Some body)), [url])
    | axios_error _ (Some (status, body)) =>
        (Resolved (mkReply (Some status) (Some body)), [url])
    | axios_error e None => (Rejected e, [url])
    | other_error e => (Rejected e, [url])
    end.

(** [ChatService.Config]'s default whitelist. *)
Definition default_whitelist : list string :=
  ["https://gchat.qpic.cn/"%string; "https://c2cpicdw.qpic.cn/"%string].

(** The key [`${platform}/${guildId}/${channelId}`] of the chat service. *)
Definition chat_key (platform guildId channelId : string) : string :=
  platform +:+ "/" +:+ guildId +:+ "/" +:+ channelId.

(** The listener of ['chat/send']. [assets] is [ctx.assets.transform] when
    the assets service is there; the result holds the calls of
    [sendMessage]: bot key, channel id, content, guild id. *)
Definition chat_send (env : Env) (assets : option (string -> Outcome string))
    (content platform channelId guildId : string) (s : MessageService)
    : Outcome unit * list (string * string * string * string) :=
  let channel := _channels s !! chat_key platform guildId channelId in
  match
    match assets with
    | Some transform => transform content
    | None => Resolved content
    end
  with
  | Resolved content' =>
      match channel with
      | None => (Rejected TypeError, [])
      | Some c =>
          let key := platform +:+ ":" +:+ interpolate (assignee (data c)) in
          if bots env key then (Resolved tt, [(key, channelId, content', guildId)])
          else (Resolved tt, [])
      end
  | Rejected e => (Rejected e, [])
  | Pending => (Pending, [])
  end.

(** The service once its query of the channel table has settled. *)
Definition queried (s : MessageService) : MessageService := snd (service_db_call s).

(** The service once the task that [queue] starts on the channel [c] of the
    session has settled. *)
Definition delegated (env : Env) (session : Session.t) (c : SyncChannel)
    (s : MessageService) : MessageService :=
  let w := snd (queue env session (mkWorld c (service_ctx s))) in
  mkMessageService
    (<[Session.cid session := self w]> (channel_of session (_channels s))) (ctx w).

(** A service, with a [config] at hand, after [#onMessage] has handed the
    session [m5] to its channel and the channel has stored it. *)
Definition stored_service : MessageService :=
  snd (onMessage sample_env guild_event idle_service).

(** An edit of that message. *)
Definition edit_of_stored : Session.t :=
  Session.mk "p" "g" "c" "A" "m5" None "u" "new" 990.

(** * Properties *)

(** ** What no method changes *)

Lemma evolves_refl d : evolves d d.
Proof. unfold evolves; auto. Qed.

Lemma evolves_trans d1 d2 d3 : evolves d1 d2 -> evolves d2 d3 -> evolves d1 d3.
Proof.
  intros (Hp & Hg & Hc & Ha) (Hp' & Hg' & Hc' & Ha').
  repeat split; try congruence.
  intros Ht. rewrite Ha', Ha; auto. rewrite Ha; auto.
Qed.

Lemma accept_evolves s c : evolves (data c) (data (snd (accept s c))).
Proof.
  unfold accept.
  destruct (truthy (assignee (data c))) eqn:Ht; simpl.
  - destruct (differs (assignee (data c)) (Session.selfId s)); simpl.
    + apply evolves_refl.
    + destruct (truthy (Session.channelName s)); simpl; unfold evolves; auto.
  - destruct (truthy (Session.channelName s)); simpl; unfold evolves; simpl;
      repeat split; congruence.
Qed.

Lemma arrive_evolves s c : evolves (data c) (data (arrive s c)).
Proof.
  unfold arrive. pose proof (accept_evolves s c) as H.
  destruct (accept s c) as [[|] c1]; simpl in *; exact H.
Qed.

Lemma arrive_all_evolves sessions c :
  evolves (data c) (data (arrive_all sessions c)).
Proof.
  revert c. induction sessions as [|s rest IH]; intros c; unfold arrive_all; simpl.
  - apply evolves_refl.
  - eapply evolves_trans; [apply arrive_evolves | apply IH].
Qed.

(** Every method is made of three kinds of steps: it updates the channel
    without touching its identity or a set assignee, it updates a part of the
    context other than the notifications and the table ['message'], or it
    emits ['chat/channel'] or ['chat/message']. A relation between worlds
    that is a preorder and holds across these steps holds across every
    method. *)
Section Frame.
Variable R : World -> World -> Prop.
Hypothesis R_refl : forall w, R w w.
Hypothesis R_trans : forall w1 w2 w3, R w1 w2 -> R w2 w3 -> R w1 w3.
Hypothesis R_self :
  forall w c, evolves (data (self w)) (data c) -> R w (mkWorld c (ctx w)).
Hypothesis R_ctx :
  forall w x,
    emitted x = emitted (ctx w) ->
    tbl_message (database x) = tbl_message (database (ctx w)) ->
    R w (mkWorld (self w) x).
Hypothesis R_emit :
  forall w n, is_chat n = true ->
  R w (on_ctx (fun x => set_emitted (emitted x ++ [n]) x) w).

Lemma respects_ret {A} (a : A) : respects R (ret a).
Proof. intros w. apply R_refl. Qed.

Lemma respects_bind {A B} (m : Task A) (k : A -> Task B) :
  respects R m -> (forall a, respects R (k a)) -> respects R (bind m k).
Proof.
  intros Hm Hk w. unfold bind. specialize (Hm w).
  destruct (m w) as [[a|e|] w1]; simpl in *; auto.
  eapply R_trans; [exact Hm | apply Hk].
Qed.

Lemma respects_db_call : respects R db_call.
Proof.
  intros w. unfold db_call.
  destruct (faults (ctx w)) as [|[e|] rest]; simpl;
    [apply R_refl|apply R_ctx; reflexivity|apply R_ctx; reflexivity].
Qed.

Lemma respects_interleave : respects R interleave.
Proof.
  intros w. unfold interleave.
  destruct (arrivals (ctx w)) as [|a rest]; simpl; [apply R_refl|].
  eapply R_trans; [apply (R_self w), (arrive_all_evolves a)|].
  apply (R_ctx (mkWorld _ (ctx w))); reflexivity.
Qed.

Lemma respects_awaited {A} (m : Task A) : respects R m -> respects R (awaited m).
Proof.
  intros Hm w. unfold awaited. specialize (Hm w).
  destruct (m w) as [settled w1]; simpl in *.
  eapply R_trans; [exact Hm|apply respects_interleave].
Qed.

Lemma respects_database_upsert rows : respects R (database_upsert rows).
Proof.
  unfold database_upsert. apply respects_awaited.
  apply respects_bind; [apply respects_db_call|]. intros _.
  intros w. apply R_ctx; reflexivity.
Qed.

Lemma respects_adapt env buffer : respects R (adapt env buffer).
Proof.
  intros w. unfold adapt.
  destruct (Array_filter (retained env) _) as [rows|]; [|apply R_refl].
  apply (respects_bind (database_upsert rows) (fun _ => ret _)).
  - apply respects_database_upsert.
  - intros _. apply respects_ret.
Qed.

Lemma respects_emit n : is_chat n = true -> respects R (emit n).
Proof. intros Hn w. apply R_emit, Hn. Qed.

Lemma respects_flush_loop env fuel : respects R (flush_loop env fuel).
Proof.
  induction fuel as [|fuel IH]; intros w; simpl.
  - destruct (_buffer (self w)); apply R_refl.
  - destruct (_buffer (self w)) as [|s batch] eqn:Hb; [apply R_refl|].
    assert (Ha : R w (snd (adapt env (s :: batch) (on_self (set_buffer []) w)))).
    { eapply R_trans; [|apply respects_adapt].
      apply (R_self w (set_buffer [] (self w))), evolves_refl. }
    destruct (adapt env (s :: batch) (on_self (set_buffer []) w)) as [[d|e|] w1];
      simpl in *; auto.
    eapply R_trans; [exact Ha|].
    eapply R_trans; [apply (R_emit w1 (chat_message d (data (self w1)))); reflexivity|].
    apply IH.
Qed.

Lemma respects_flush env : respects R (flush env).
Proof. intros w. apply respects_flush_loop. Qed.

Lemma respects_getMessageList bot channelId next :
  respects R (getMessageList bot channelId next).
Proof.
  intros w. unfold getMessageList. destruct bot; [|apply R_refl].
  simpl. destruct (remote (ctx w)) as [|reply rest]; simpl.
  - apply (R_ctx w (set_requested (requested (ctx w) ++ [(channelId, next)]) (ctx w)));
      reflexivity.
  - apply (R_ctx w (set_remote rest
                      (set_requested (requested (ctx w) ++ [(channelId, next)]) (ctx w))));
      reflexivity.
Qed.

Lemma respects_syncHistory_loop fuel bot channelId rear next :
  respects R (syncHistory_loop fuel bot channelId rear next).
Proof.
  revert next. induction fuel as [|fuel IH]; intros next w; simpl.
  - apply R_refl.
  - pose proof (respects_getMessageList bot channelId next w) as Hg.
    destruct (getMessageList bot channelId next w) as [[page|e|] w1]; simpl in *; auto.
    destruct page as [|first page]; simpl; auto.
    destruct (scan rear (rev page ++ [first]) (_buffer (self w1))) as [found buffer'].
    assert (Hb : R w (on_self (set_buffer buffer') w1)).
    { eapply R_trans; [exact Hg|].
      apply (R_self w1 (set_buffer buffer' (self w1))), evolves_refl. }
    destruct found; simpl; [exact Hb|].
    eapply R_trans; [exact Hb|apply IH].
Qed.

Lemma respects_syncHistory env rear next : respects R (syncHistory env rear next).
Proof.
  intros w. unfold syncHistory.
  apply (respects_bind (syncHistory_loop _ _ _ rear next) (fun _ => flush env)).
  - apply respects_syncHistory_loop.
  - intros _. apply respects_flush.
Qed.

Lemma respects_getHistory_loop fuel bot channelId count :
  forall next buffer, respects R (getHistory_loop fuel bot channelId count next buffer).
Proof.
  induction fuel as [|fuel IH]; intros next buffer w; simpl.
  - apply R_refl.
  - pose proof (respects_getMessageList bot channelId next w) as Hg.
    destruct (getMessageList bot channelId next w) as [[page|e|] w1]; simpl in *; auto.
    destruct ((length page =? 0)%nat || (count <=? length (buffer ++ page))%nat);
      simpl; [exact Hg|].
    eapply R_trans; [exact Hg|apply IH].
Qed.

Lemma respects_getHistory env count next : respects R (getHistory env count next).
Proof.
  intros w. unfold getHistory.
  apply (respects_bind (getHistory_loop _ _ _ count next []) (fun b => adapt env (rev b))).
  - apply respects_getHistory_loop.
  - intros b. apply respects_adapt.
Qed.

Lemma respects_select desc limit : respects R (select desc limit).
Proof.
  intros w. unfold select. pose proof (respects_db_call w) as H.
  destruct (db_call w) as [[u|e|] w1]; exact H.
Qed.

Lemma respects_getMessages env count : respects R (getMessages env count).
Proof.
  unfold getMessages. apply respects_bind; [apply respects_select|].
  intros rows. destruct (length (rev rows) <? count)%nat.
  - apply respects_bind; [apply respects_getHistory|]. intros h. apply respects_ret.
  - apply respects_ret.
Qed.

Lemma respects__init env session : respects R (_init env session).
Proof.
  intros w. unfold _init.
  pose proof (respects_select false 1 w) as H1.
  destruct (select false 1 w) as [first w1]; simpl in H1.
  pose proof (respects_select true 1 w1) as H2.
  destruct (select true 1 w1) as [second w2]; simpl in H2.
  assert (H12 : R w w2) by (eapply R_trans; eauto).
  destruct first as [oldest|e|]; [|exact H12|destruct second; exact H12].
  destruct second as [newest|e|]; [|exact H12|exact H12].
  eapply R_trans; [exact H12|].
  apply respects_bind.
  - destruct (head newest); [apply respects_syncHistory|apply respects_ret].
  - intros _. apply respects_bind.
    + intros w'. apply (R_self w' (set_status SYNCED (self w'))), evolves_refl.
    + intros _. apply respects_bind.
      * intros w'. apply (R_self w'). unfold evolves; simpl; auto.
      * intros _ w'. apply R_emit. reflexivity.
Qed.

Lemma respects_init env session : respects R (init env session).
Proof.
  intros w. unfold init.
  destruct (_initTask (self w)); [apply R_refl|].
  pose proof (respects__init env session w) as H.
  destruct (_init env session w) as [settled w1]; simpl in *.
  eapply R_trans; [exact H|].
  apply (R_self w1 (set_initTask (Some settled) (self w1))), evolves_refl.
Qed.

Lemma respects_ensure {A} (callback : Task A) :
  respects R callback -> respects R (ensure callback).
Proof.
  intros Hc w. unfold ensure.
  destruct (SyncStatus_eqb (status (self w)) FAILED); [apply R_refl|].
  destruct (stopped (ctx w)); [apply R_refl|].
  assert (Hw : R w (on_ctx (set_awaiting 0) w)) by (apply R_ctx; reflexivity).
  specialize (Hc (on_ctx (set_awaiting 0) w)).
  destruct (callback (on_ctx (set_awaiting 0) w)) as [[a|e|] w1]; simpl in *;
    try (eapply R_trans; [exact Hw|exact Hc]).
  eapply R_trans; [exact Hw|]. eapply R_trans; [exact Hc|].
  eapply R_trans;
    [apply (R_ctx w1 (set_warned (warned (ctx w1) ++ repeat e (S (awaiting (ctx w1))))
                        (ctx w1))); reflexivity|].
  apply (R_self (mkWorld (self w1) _) (set_status FAILED (self w1))), evolves_refl.
Qed.

Lemma respects_then_flush env : respects R (then_flush env).
Proof.
  intros w. unfold then_flush.
  destruct (_queueTask (self w)); [apply R_refl|].
  pose proof (respects_flush env w) as H.
  destruct (flush env w) as [[u|e|] w1]; simpl in *; try exact H.
  eapply R_trans; [exact H|].
  apply (R_self w1 (set_queueTask (Some e) (self w1))), evolves_refl.
Qed.

Lemma respects_queue_callback env session : respects R (queue_callback env session).
Proof.
  unfold queue_callback. apply respects_bind.
  - intros w. destruct (SyncStatus_eqb (status (self w)) SYNCING);
      [apply respects_init|apply R_refl].
  - intros _ w. destruct (SyncStatus_eqb (status (self w)) SYNCED);
      [apply respects_then_flush|apply R_refl].
Qed.

(** What [queue] does once [accept] has let the session in. *)
Lemma respects_enqueued env session :
  respects R (let* _ := ensure (queue_callback env session) in ret tt).
Proof.
  apply respects_bind.
  - apply respects_ensure, respects_queue_callback.
  - intros _. apply respects_ret.
Qed.

Lemma respects_queue env session : respects R (queue env session).
Proof.
  intros w. unfold queue.
  pose proof (accept_evolves session (self w)) as Ha.
  destruct (accept session (self w)) as [[|] c]; simpl in Ha.
  - apply (R_self w c), Ha.
  - eapply R_trans; [|apply respects_enqueued]. simpl.
    apply (R_self w (set_buffer (_buffer c ++ [session]) c)), Ha.
Qed.

Lemma respects_queue_all env sessions : forall w, R w (queue_all env sessions w).
Proof.
  induction sessions as [|s rest IH]; intros w; simpl.
  - apply R_refl.
  - eapply R_trans; [apply respects_queue | apply IH].
Qed.

End Frame.

(** *** The identity of the channel and a set assignee are kept *)

Lemma keeps_identity_enqueued env session :
  respects keeps_identity (let* _ := ensure (queue_callback env session) in ret tt).
Proof.
  apply respects_enqueued; unfold keeps_identity.
  - intros w. apply evolves_refl.
  - intros w1 w2 w3. apply evolves_trans.
  - intros w c H. exact H.
  - intros w x _ _. apply evolves_refl.
  - intros w n _. apply evolves_refl.
Qed.

Lemma preserves_queue env session : respects keeps_identity (queue env session).
Proof.
  apply respects_queue; unfold keeps_identity.
  - intros w. apply evolves_refl.
  - intros w1 w2 w3. apply evolves_trans.
  - intros w c H. exact H.
  - intros w x _ _. apply evolves_refl.
  - intros w n _. apply evolves_refl.
Qed.

Lemma queue_all_evolves env sessions w :
  evolves (data (self w)) (data (self (queue_all env sessions w))).
Proof.
  apply (respects_queue_all keeps_identity); unfold keeps_identity.
  - intros w0. apply evolves_refl.
  - intros w1 w2 w3. apply evolves_trans.
  - intros w0 c H. exact H.
  - intros w0 x _ _. apply evolves_refl.
  - intros w0 n _. apply evolves_refl.
Qed.

(** *** Only the two chat notifications are ever sent *)

Lemma emits_chat_only_refl w : emits_chat_only w w.
Proof. exists []. rewrite app_nil_r. auto. Qed.

Lemma emits_chat_only_trans w1 w2 w3 :
  emits_chat_only w1 w2 -> emits_chat_only w2 w3 -> emits_chat_only w1 w3.
Proof.
  intros (a1 & H1 & F1) (a2 & H2 & F2). exists (a1 ++ a2).
  rewrite H2, H1, <- app_assoc, forallb_app, F1, F2. auto.
Qed.

Lemma queue_all_emits_chat_only env sessions w :
  emits_chat_only w (queue_all env sessions w).
Proof.
  apply (respects_queue_all emits_chat_only).
  - apply emits_chat_only_refl.
  - apply emits_chat_only_trans.
  - intros w0 c _. exists []. simpl. rewrite app_nil_r. auto.
  - intros w0 x Hx _. exists []. simpl. rewrite app_nil_r. auto.
  - intros w0 n Hn. exists [n]. simpl. rewrite Hn. auto.
Qed.

(** No run of [queue] ever sends ['messages/syncFailed']. *)
Lemma never_syncFailed env sessions w cid error :
  In (messages_syncFailed cid error) (emitted (ctx (queue_all env sessions w))) ->
  In (messages_syncFailed cid error) (emitted (ctx w)).
Proof.
  destruct (queue_all_emits_chat_only env sessions w) as (added & Hadd & Hchat).
  rewrite Hadd, in_app_iff. intros [H|H]; [exact H|].
  rewrite forallb_forall in Hchat. apply Hchat in H. discriminate.
Qed.

(** *** The channel never writes the table ['message'] *)

Lemma queue_all_keeps_message_table env sessions w :
  tbl_message (database (ctx (queue_all env sessions w)))
  = tbl_message (database (ctx w)).
Proof.
  apply (respects_queue_all
           (fun w w' => tbl_message (database (ctx w')) = tbl_message (database (ctx w)))).
  - reflexivity.
  - intros w1 w2 w3 H12 H23. congruence.
  - reflexivity.
  - intros w0 x _ Hx. exact Hx.
  - reflexivity.
Qed.

(** ** Ownership *)

Lemma truthy_Some a : a <> EmptyString -> truthy (Some a) = true.
Proof.
  intros H. simpl. destruct (String.eqb_spec a EmptyString); [contradiction|reflexivity].
Qed.

(** An assignee that is set turns every other sender away, and [queue]
    then leaves the world as it was. *)
Lemma queue_rejects env a s w :
  assignee (data (self w)) = Some a -> a <> EmptyString -> Session.selfId s <> a ->
  accept s (self w) = (true, self w) /\ queue env s w = (Resolved tt, w).
Proof.
  intros Ha Hne Hs.
  assert (Hacc : accept s (self w) = (true, self w)).
  { unfold accept. rewrite Ha, (truthy_Some a Hne). simpl.
    destruct (String.eqb_spec a (Session.selfId s)); [congruence|reflexivity]. }
  split; [exact Hacc|].
  unfold queue. rewrite Hacc. destruct w; reflexivity.
Qed.

(** The first session a channel sees sets the assignee. *)
Lemma accept_adopts s c :
  truthy (assignee (data c)) = false ->
  fst (accept s c) = false
  /\ assignee (data (snd (accept s c))) = Some (Session.selfId s).
Proof.
  intros Ht. unfold accept. rewrite Ht. simpl.
  destruct (truthy (Session.channelName s)); auto.
Qed.

(** ** Failure *)

Lemma queue_failed env s w :
  status (self w) = FAILED ->
  status (self (snd (queue env s w))) = FAILED
  /\ ctx (snd (queue env s w)) = ctx w
  /\ fst (queue env s w) = Resolved tt.
Proof.
  intros Hf. unfold queue.
  assert (Hst : status (snd (accept s (self w))) = FAILED).
  { unfold accept.
    destruct (truthy (assignee (data (self w)))); simpl;
      [destruct (differs _ _); simpl|];
      try destruct (truthy (Session.channelName s)); simpl; exact Hf. }
  destruct (accept s (self w)) as [[|] c]; simpl in *; auto.
  unfold bind, ensure; simpl. rewrite Hst. simpl. auto.
Qed.

Lemma queue_adopts env s w :
  assignee (data (self w)) = None -> Session.selfId s <> EmptyString ->
  assignee (data (self (snd (queue env s w)))) = Some (Session.selfId s).
Proof.
  intros Hn Hs. unfold queue.
  assert (Ht : truthy (assignee (data (self w))) = false) by (rewrite Hn; reflexivity).
  destruct (accept_adopts s (self w) Ht) as [Hrej Hset].
  destruct (accept s (self w)) as [rejected c]; simpl in Hrej, Hset. subst rejected.
  pose proof (keeps_identity_enqueued env s
                (mkWorld (set_buffer (_buffer c ++ [s]) c) (ctx w))) as (_ & _ & _ & Hk).
  simpl in Hk. rewrite Hk; [exact Hset|].
  rewrite Hset. apply truthy_Some, Hs.
Qed.

(** C3 (amended). The first session a channel sees sets the assignee; when
    that sender id is a non-empty string the assignee never changes again,
    whatever sessions are queued later: [accept] turns away every session of
    another sender, and [queue] then leaves the channel, its buffer, the store
    and every trace exactly as they were. *)
Theorem ownership_once_set (env : Env) (w0 : World) (s0 : Session.t)
    (later : list Session.t) (s : Session.t) :
  assignee (data (self w0)) = None ->
  Session.selfId s0 <> EmptyString ->
  Session.selfId s <> Session.selfId s0 ->
  fst (accept s0 (self w0)) = false
  /\ assignee (data (self (queue_all env (s0 :: later) w0))) = Some (Session.selfId s0)
  /\ accept s (self (queue_all env (s0 :: later) w0))
     = (true, self (queue_all env (s0 :: later) w0))
  /\ queue env s (queue_all env (s0 :: later) w0)
     = (Resolved tt, queue_all env (s0 :: later) w0).
Proof.
  intros Hnone Hs0 Hs.
  assert (Hown : assignee (data (self (queue_all env (s0 :: later) w0)))
                 = Some (Session.selfId s0)).
  { simpl. pose proof (queue_adopts env s0 w0 Hnone Hs0) as H1.
    destruct (queue_all_evolves env later (snd (queue env s0 w0))) as (_ & _ & _ & Hk).
    rewrite Hk; [exact H1|]. rewrite H1. apply truthy_Some, Hs0. }
  split.
  - apply accept_adopts. rewrite Hnone. reflexivity.
  - split; [exact Hown|]. apply (queue_rejects env _ s _ Hown Hs0 Hs).
Qed.

Lemma ownership_once_set_witness :
  assignee (data (self (queue_all sample_env [event "A" "m1" 950; event "A" "m2" 960]
                          fresh_world))) = Some "A"%string
  /\ queue sample_env (event "B" "m3" 970)
       (queue_all sample_env [event "A" "m1" 950; event "A" "m2" 960] fresh_world)
     = (Resolved tt,
        queue_all sample_env [event "A" "m1" 950; event "A" "m2" 960] fresh_world).
Proof.
  pose proof (ownership_once_set sample_env fresh_world (event "A" "m1" 950)
                [event "A" "m2" 960] (event "B" "m3" 970)) as H.
  destruct H as (_ & H2 & _ & H4).
  - reflexivity.
  - discriminate.
  - discriminate.
  - split; [exact H2 | exact H4].
Defined.

(** C3 as stated fails when the first sender id is the empty string: the
    assignee is then [''], which [accept] takes for unset, so the session of
    another sender is accepted, takes the channel over and is written. *)
Lemma ownership_counterexample :
  assignee (data (self (snd (queue sample_env (event EmptyString "m1" 950) fresh_world))))
  = Some EmptyString
  /\ differs (Some EmptyString) (Session.selfId (event "B" "m2" 960)) = true
  /\ fst (accept (event "B" "m2" 960)
            (self (snd (queue sample_env (event EmptyString "m1" 950) fresh_world)))) = false
  /\ assignee (data (self (queue_all sample_env [event EmptyString "m1" 950; event "B" "m2" 960]
                             fresh_world))) = Some "B"%string
  /\ map Message.selfId
       (tbl_chat_message (database (ctx
          (queue_all sample_env [event EmptyString "m1" 950; event "B" "m2" 960] fresh_world))))
     = [EmptyString; "B"%string].
Proof. repeat split; vm_compute; reflexivity. Qed.

(** C4. FAILED is absorbing: whatever sessions are queued on a channel
    whose status is FAILED, the status stays FAILED and the context is left
    untouched: no store write, no notification, no call to the remote. *)
Theorem failed_is_absorbing (env : Env) (sessions : list Session.t) (w : World) :
  status (self w) = FAILED ->
  status (self (queue_all env sessions w)) = FAILED
  /\ ctx (queue_all env sessions w) = ctx w.
Proof.
  revert w. induction sessions as [|s rest IH]; intros w Hf; simpl; [auto|].
  destruct (queue_failed env s w Hf) as (Hst & Hctx & _).
  destruct (IH _ Hst) as [H1 H2]. split; [exact H1|congruence].
Qed.

Lemma failed_is_absorbing_witness :
  status (self failed_world) = FAILED
  /\ status (self (queue_all sample_env [event "A" "m10" 960; event "A" "m11" 970]
                     failed_world)) = FAILED
  /\ ctx (queue_all sample_env [event "A" "m10" 960; event "A" "m11" 970] failed_world)
     = ctx failed_world.
Proof.
  split; [reflexivity|].
  apply (failed_is_absorbing sample_env
           [event "A" "m10" 960; event "A" "m11" 970] failed_world).
  reflexivity.
Defined.

(** C6. When the first query of the initialisation rejects, the channel
    becomes FAILED and the error goes to the log, but nothing is emitted; and
    whatever is queued afterwards, the ['messages/syncFailed'] event that
    [index.ts] declares is never sent. *)
Theorem failure_is_only_logged (env : Env) (s : Session.t) (w : World)
    (e : Error) (rest : list (option Error)) :
  assignee (data (self w)) = None ->
  status (self w) = SYNCING ->
  _initTask (self w) = None ->
  stopped (ctx w) = false ->
  faults (ctx w) = Some e :: rest ->
  status (self (snd (queue env s w))) = FAILED
  /\ warned (ctx (snd (queue env s w))) = warned (ctx w) ++ [e]
  /\ emitted (ctx (snd (queue env s w))) = emitted (ctx w)
  /\ upserts (ctx (snd (queue env s w))) = upserts (ctx w)
  /\ (forall later cid error,
        In (messages_syncFailed cid error)
           (emitted (ctx (queue_all env (s :: later) w))) ->
        In (messages_syncFailed cid error) (emitted (ctx w))).
Proof.
  intros Ha Hs Hi Hstop Hf.
  assert (Hfail : status (self (snd (queue env s w))) = FAILED
                  /\ warned (ctx (snd (queue env s w))) = warned (ctx w) ++ [e]
                  /\ emitted (ctx (snd (queue env s w))) = emitted (ctx w)
                  /\ upserts (ctx (snd (queue env s w))) = upserts (ctx w)).
  { destruct w as [c x]; simpl in *.
    unfold queue, accept; simpl. rewrite Ha; simpl.
    assert (Hgen : forall c1, status c1 = SYNCING -> _initTask c1 = None ->
      let w' := snd (bind (ensure (queue_callback env s)) (fun _ => ret tt)
                       (mkWorld (set_buffer (_buffer c1 ++ [s]) c1) x)) in
      status (self w') = FAILED /\ warned (ctx w') = warned x ++ [e]
      /\ emitted (ctx w') = emitted x /\ upserts (ctx w') = upserts x).
    { intros c1 Hs1 Hi1.
      unfold bind, ensure, queue_callback, bind, init, _init, select, db_call; simpl.
      rewrite Hs1, Hstop; simpl. rewrite Hi1, Hf; simpl.
      destruct rest as [|[e'|] rest']; simpl; auto. }
    destruct (truthy (Session.channelName s)); apply Hgen; assumption. }
  destruct Hfail as (H1 & H2 & H3 & H4).
  repeat (split; [assumption|]).
  intros later cid error. apply never_syncFailed.
Qed.

Lemma failure_is_only_logged_witness :
  status (self failed_world) = FAILED
  /\ warned (ctx failed_world) = [StoreError 1]
  /\ emitted (ctx failed_world) = []
  /\ upserts (ctx failed_world) = [].
Proof.
  destruct (failure_is_only_logged sample_env (event "A" "m9" 950)
              (mkWorld fresh_channel (set_faults [Some (StoreError 1)] idle_ctx))
              (StoreError 1) []) as (H1 & H2 & H3 & H4 & _); try reflexivity.
  repeat split; assumption.
Defined.

(** C5. An empty page makes [syncHistory] throw: reading [data[0].messageId]
    is a TypeError, the buffer is left as it was and nothing is written. The
    loop of [getHistory] tests [data.length === 0] and stops on the same
    reply. *)
Theorem empty_page_throws (env : Env) (rear : string) (next : option string)
    (count : nat) (w : World) (rest : list (Outcome (list Session.t))) :
  bots env (bot_key (data (self w))) = true ->
  remote (ctx w) = Resolved [] :: rest ->
  fst (syncHistory env rear next w) = Rejected TypeError
  /\ _buffer (self (snd (syncHistory env rear next w))) = _buffer (self w)
  /\ upserts (ctx (snd (syncHistory env rear next w))) = upserts (ctx w)
  /\ fst (getHistory_loop (S count) true (channelId (data (self w))) count next [] w)
     = Resolved [].
Proof.
  intros Hb Hr.
  unfold syncHistory, bind. rewrite Hb, Hr. simpl. rewrite Hr. simpl.
  repeat split; reflexivity.
Qed.

Lemma empty_page_throws_witness :
  status (self (snd (queue sample_env (event "A" "m7" 970) exhausted_world))) = FAILED
  /\ warned (ctx (snd (queue sample_env (event "A" "m7" 970) exhausted_world)))
     = [TypeError]
  /\ fst (syncHistory sample_env "m3" None
            (on_ctx (set_remote [Resolved []]) exhausted_world)) = Rejected TypeError.
Proof.
  split; [reflexivity|]. split; [reflexivity|].
  apply (empty_page_throws sample_env "m3" None 1
           (on_ctx (set_remote [Resolved []]) exhausted_world) []); reflexivity.
Defined.

(** ** The registry *)

(** C2. For a session the registry lets through and whose key has no
    channel yet, [#onMessage] creates the channel with the session's platform
    as platform, the session's channel id as [guildId], and [undefined] as
    [channelId]: the constructor call leaves the guild id out. *)
Theorem registry_shifts_identity (env : Env) (session : Session.t)
    (s : MessageService) :
  hd None (faults (service_ctx s)) = None ->
  getChannel env (Session.platform session) (Session.channelId session)
  = Some (Session.selfId session) ->
  _channels s !! Session.cid session = None ->
  exists c,
    _channels (snd (onMessage env session s)) !! Session.cid session = Some c
    /\ platform (data c) = Session.platform session
    /\ guildId (data c) = Session.channelId session
    /\ channelId (data c) = None.
Proof.
  intros Hf Hg Hnew. unfold onMessage.
  assert (Hdb : exists x, service_db_call s = (Resolved tt, mkMessageService (_channels s) x)).
  { unfold service_db_call. destruct s as [chs x]; simpl in *.
    destruct (faults x) as [|[e|] rest]; simpl in Hf; try discriminate; eauto. }
  destruct Hdb as [x Hdb]. rewrite Hdb. simpl.
  rewrite Hg, String.eqb_refl. simpl.
  unfold channel_of. rewrite Hnew. rewrite lookup_insert_eq.
  pose proof (preserves_queue env session
    (mkWorld (SyncChannel_new (Session.platform session) (Session.channelId session) None) x))
    as (Hp & Hgu & Hc & _).
  destruct (queue env session _) as [settled w]; simpl in *.
  exists (self w). rewrite lookup_insert_eq. auto.
Qed.

Lemma registry_shifts_identity_witness :
  exists c,
    _channels (snd (onMessage sample_env guild_event idle_service))
      !! Session.cid guild_event = Some c
    /\ platform (data c) = "p"%string
    /\ guildId (data c) = "c"%string
    /\ channelId (data c) = None.
Proof.
  apply (registry_shifts_identity sample_env guild_event idle_service).
  - reflexivity.
  - reflexivity.
  - reflexivity.
Defined.

(** C9. The listeners of edits and deletes never look at a channel: when
    the driver accepts the call, every row of the table ['message'] with the
    session's message id and platform gets [content] and [lastUpdated] (edit)
    or [deleted] and [lastUpdated] (delete) overwritten and keeps every other
    column; every other row, the channels with their statuses and the traces
    are left as they were. But the table they update is not the one the
    channels write: the table ['chat.message'], where [adapt] stores the
    records, is left as it was, and no call of [queue] ever changes the table
    ['message']. So a record that a channel has stored never receives the
    edit or the delete. *)
Theorem edits_and_deletes_are_point_updates (env : Env) (session : Session.t)
    (s : MessageService) :
  hd None (faults (service_ctx s)) = None ->
  let edited := snd (onMessageUpdated env session s) in
  let deleted := snd (onMessageDeleted env session s) in
  fst (onMessageUpdated env session s) = Resolved tt
  /\ fst (onMessageDeleted env session s) = Resolved tt
  /\ _channels edited = _channels s /\ _channels deleted = _channels s
  /\ tbl_chat_message (database (service_ctx edited))
     = tbl_chat_message (database (service_ctx s))
  /\ tbl_chat_message (database (service_ctx deleted))
     = tbl_chat_message (database (service_ctx s))
  /\ upserts (service_ctx edited) = upserts (service_ctx s)
  /\ upserts (service_ctx deleted) = upserts (service_ctx s)
  /\ emitted (service_ctx edited) = emitted (service_ctx s)
  /\ emitted (service_ctx deleted) = emitted (service_ctx s)
  /\ tbl_message (database (service_ctx edited))
     = map (fun r =>
              if String.eqb (Message.messageId r) (Session.messageId session)
                 && String.eqb (Message.platform r) (Session.platform session)
              then Message.mk (Message.id r) (Session.content session)
                     (Message.platform r) (Message.guildId r) (Message.messageId r)
                     (Message.userId r) (Message.timestamp r) (Message.quoteId r)
                     (Message.username r) (Message.nickname r) (Message.channelId r)
                     (Message.selfId r) (Date_now env) (Message.deleted r)
              else r)
         (tbl_message (database (service_ctx s)))
  /\ tbl_message (database (service_ctx deleted))
     = map (fun r =>
              if String.eqb (Message.messageId r) (Session.messageId session)
                 && String.eqb (Message.platform r) (Session.platform session)
              then Message.mk (Message.id r) (Message.content r)
                     (Message.platform r) (Message.guildId r) (Message.messageId r)
                     (Message.userId r) (Message.timestamp r) (Message.quoteId r)
                     (Message.username r) (Message.nickname r) (Message.channelId r)
                     (Message.selfId r) (Date_now env) 1
              else r)
         (tbl_message (database (service_ctx s)))
  /\ (forall sessions w,
        tbl_message (database (ctx (queue_all env sessions w)))
        = tbl_message (database (ctx w))).
Proof.
  intros Hf edited deleted. subst edited deleted.
  assert (Hq : forall sessions w,
            tbl_message (database (ctx (queue_all env sessions w)))
            = tbl_message (database (ctx w)))
    by (intros sessions w; apply queue_all_keeps_message_table).
  unfold onMessageUpdated, onMessageDeleted, database_set, service_db_call.
  destruct s as [chs x]; simpl in *.
  destruct (faults x) as [|[e|] rest]; simpl in Hf; try discriminate; simpl;
    repeat split; try reflexivity; apply Hq.
Qed.

Lemma edits_and_deletes_are_point_updates_witness :
  map Message.messageId (tbl_chat_message (database (service_ctx stored_service)))
  = ["m5"%string]
  /\ tbl_message (database (service_ctx stored_service)) = []
  /\ fst (onMessageUpdated sample_env edit_of_stored stored_service) = Resolved tt
  /\ map Message.content
       (tbl_chat_message (database (service_ctx
          (snd (onMessageUpdated sample_env edit_of_stored stored_service)))))
     = ["hi"%string]
  /\ tbl_message (database (service_ctx
        (snd (onMessageUpdated sample_env edit_of_stored stored_service)))) = []
  /\ fst (onMessageDeleted sample_env edit_of_stored stored_service) = Resolved tt
  /\ map Message.deleted
       (tbl_chat_message (database (service_ctx
          (snd (onMessageDeleted sample_env edit_of_stored stored_service)))))
     = [0]
  /\ tbl_message (database (service_ctx
        (snd (onMessageDeleted sample_env edit_of_stored stored_service)))) = [].
Proof.
  destruct (edits_and_deletes_are_point_updates sample_env edit_of_stored stored_service)
    as (H1 & H2 & _ & _ & H5 & H6 & _ & _ & _ & _ & H11 & H12 & _); [reflexivity|].
  split; [reflexivity|]. split; [reflexivity|].
  split; [exact H1|]. split; [rewrite H5; reflexivity|].
  split; [rewrite H11; reflexivity|].
  split; [exact H2|]. split; [rewrite H6; reflexivity|].
  rewrite H12. reflexivity.
Defined.

(** On rows that are put into the table ['message'] by hand, the two
    listeners do update the row of the message, whatever the status of the
    channel. *)
Example listeners_update_the_message_table :
  status <$> (_channels failed_service !! "p:c"%string) = Some FAILED
  /\ map Message.content
       (tbl_message (database (service_ctx
          (snd (onMessageUpdated sample_env edit_event failed_service)))))
     = ["new"%string; "two"%string]
  /\ map Message.deleted
       (tbl_message (database (service_ctx
          (snd (onMessageDeleted sample_env edit_event failed_service)))))
     = [1; 0].
Proof. repeat split; vm_compute; reflexivity. Qed.

(** ** Store writes and [flush] *)

Lemma Array_filter_kept env cfg (d : list Message.t) :
  config env = Some cfg ->
  Array_filter (retained env) d = Some (List.filter (kept env cfg) d).
Proof.
  intros Hc. unfold retained. rewrite Hc.
  induction d as [|m d IH]; simpl; [reflexivity|].
  rewrite IH. destruct (kept env cfg m); reflexivity.
Qed.

Lemma Array_filter_throws env (d : list Message.t) :
  config env = None -> d <> [] -> Array_filter (retained env) d = None.
Proof.
  intros Hc Hd. destruct d as [|m d]; [contradiction|].
  simpl. unfold retained. rewrite Hc. reflexivity.
Qed.

Lemma kept_spec env cfg m :
  kept env cfg m = true
  <-> exists limit, maxAge cfg = Some limit /\ Date_now env - Message.timestamp m < limit.
Proof.
  unfold kept. destruct (maxAge cfg) as [limit|].
  - rewrite Z.ltb_lt. split.
    + intros H. exists limit. auto.
    + intros (l & Hl & H). congruence.
  - split; [discriminate|]. intros (l & Hl & _). discriminate.
Qed.

Lemma adapt_accepted env cfg buffer w :
  config env = Some cfg ->
  hd None (faults (ctx w)) = None ->
  adapt env buffer w
  = (Resolved (adapted env (self w) buffer), after_adapt env cfg buffer w).
Proof.
  intros Hc Hf. unfold adapt. rewrite (Array_filter_kept env cfg _ Hc).
  unfold bind, database_upsert, awaited, bind, db_call, interleave, ret,
    after_adapt, adapted.
  destruct w as [c x]; destruct x as [db u em wa st re rq fa ar aw]; simpl in *.
  destruct fa as [|[e|] fa]; simpl in Hf; try discriminate; simpl;
    destruct ar as [|a ar]; simpl; rewrite ?Nat.sub_diag, ?Nat.add_0_r; reflexivity.
Qed.

(** A write that the driver rejects: nothing is written, and the sessions
    that came in while it was awaited are in the buffer. *)
Lemma adapt_faulted env cfg buffer w e rest :
  config env = Some cfg ->
  faults (ctx w) = Some e :: rest ->
  adapt env buffer w = (Rejected e, snd (interleave (on_ctx (set_faults rest) w))).
Proof.
  intros Hc Hf. unfold adapt. rewrite (Array_filter_kept env cfg _ Hc).
  unfold bind, database_upsert, awaited, bind, db_call. rewrite Hf. reflexivity.
Qed.

(** The service that [index.ts] constructs has no [config], whatever it is
    given. *)
Lemma constructed_has_no_config given env : config (constructed given env) = None.
Proof. reflexivity. Qed.

(** Without a [config] the retention test throws on the first record, before
    the driver is called. *)
Lemma adapt_unconfigured env buffer w :
  config env = None -> buffer <> [] ->
  adapt env buffer w = (Rejected TypeError, w).
Proof.
  intros Hc Hb. unfold adapt. rewrite Array_filter_throws; [reflexivity|exact Hc|].
  destruct buffer; [contradiction|discriminate].
Qed.

Lemma arrive_all_nil c : arrive_all [] c = c.
Proof. reflexivity. Qed.

Lemma flush_loop_empty env fuel w :
  _buffer (self w) = [] -> flush_loop env fuel w = (Resolved tt, w).
Proof. intros H. destruct fuel; simpl; rewrite H; reflexivity. Qed.

Lemma flush_loop_turn env cfg fuel w :
  config env = Some cfg ->
  _buffer (self w) <> [] -> hd None (faults (ctx w)) = None ->
  flush_loop env (S fuel) w = flush_loop env fuel (after_turn env cfg w).
Proof.
  intros Hc Hb Hf. simpl.
  destruct (_buffer (self w)) as [|s batch] eqn:Hbuf; [contradiction|].
  rewrite (adapt_accepted env cfg) by assumption.
  unfold emit, after_turn. rewrite Hbuf. reflexivity.
Qed.

Lemma flush_loop_unconfigured env fuel w :
  config env = None -> _buffer (self w) <> [] ->
  flush_loop env (S fuel) w = (Rejected TypeError, on_self (set_buffer []) w).
Proof.
  intros Hc Hb. simpl.
  destruct (_buffer (self w)) as [|s batch] eqn:Hbuf; [contradiction|].
  rewrite adapt_unconfigured; [reflexivity|exact Hc|discriminate].
Qed.

Lemma flush_unconfigured env w :
  config env = None -> _buffer (self w) <> [] ->
  flush env w = (Rejected TypeError, on_self (set_buffer []) w).
Proof. intros Hc Hb. unfold flush. apply flush_loop_unconfigured; assumption. Qed.

Lemma after_turn_arrivals env cfg w :
  arrivals (ctx (after_turn env cfg w)) = tl (arrivals (ctx w)).
Proof. reflexivity. Qed.

Lemma after_turn_buffer env cfg w :
  _buffer (self (after_turn env cfg w))
  = _buffer (arrive_all (hd [] (arrivals (ctx w))) (set_buffer [] (self w))).
Proof. reflexivity. Qed.

(** With one unit of fuel more than the arrival script is long, the loop
    never runs out of fuel, and it only stops on an empty buffer, on a
    rejected write or on a throw of the retention test. *)
Lemma flush_loop_settles env fuel : forall w,
  (length (arrivals (ctx w)) < fuel)%nat \/ _buffer (self w) = [] ->
  fst (flush_loop env fuel w) <> Pending
  /\ (fst (flush_loop env fuel w) = Resolved tt ->
      _buffer (self (snd (flush_loop env fuel w))) = []).
Proof.
  induction fuel as [|fuel IH]; intros w Hm.
  - destruct Hm as [Hm|Hm]; [inversion Hm|].
    rewrite flush_loop_empty by exact Hm. simpl. split; [discriminate|auto].
  - destruct (_buffer (self w)) as [|s batch] eqn:Hbuf.
    { rewrite flush_loop_empty by exact Hbuf. simpl. split; [discriminate|auto]. }
    destruct Hm as [Hm|Hm]; [|congruence].
    destruct (config env) as [cfg|] eqn:Hc.
    2:{ rewrite flush_loop_unconfigured; [|exact Hc|congruence].
        simpl. split; discriminate. }
    destruct (faults (ctx w)) as [|[e|] rest] eqn:Hf.
    + rewrite (flush_loop_turn env cfg); [|exact Hc|congruence|rewrite Hf; reflexivity].
      apply IH. rewrite after_turn_arrivals, after_turn_buffer.
      destruct (arrivals (ctx w)) as [|a ar]; simpl in *; [right; reflexivity|left; lia].
    + simpl. rewrite Hbuf.
      rewrite (adapt_faulted env cfg (s :: batch) (on_self (set_buffer []) w) e rest Hc Hf).
      simpl. split; discriminate.
    + rewrite (flush_loop_turn env cfg); [|exact Hc|congruence|rewrite Hf; reflexivity].
      apply IH. rewrite after_turn_arrivals, after_turn_buffer.
      destruct (arrivals (ctx w)) as [|a ar]; simpl in *; [right; reflexivity|left; lia].
Qed.

Lemma flush_turn env cfg w :
  config env = Some cfg ->
  _buffer (self w) <> [] -> hd None (faults (ctx w)) = None ->
  flush env w = flush env (after_turn env cfg w).
Proof.
  intros Hc Hb Hf. unfold flush. rewrite (flush_loop_turn env cfg) by assumption.
  rewrite after_turn_arrivals.
  destruct (arrivals (ctx w)) as [|a ar] eqn:Ha; cbn [length tl]; [|reflexivity].
  assert (Hempty : _buffer (self (after_turn env cfg w)) = []).
  { rewrite after_turn_buffer, Ha. reflexivity. }
  rewrite (flush_loop_empty env 0 _ Hempty), (flush_loop_empty env 1 _ Hempty).
  reflexivity.
Qed.

Lemma interleave_traces w :
  upserts (ctx (snd (interleave w))) = upserts (ctx w)
  /\ emitted (ctx (snd (interleave w))) = emitted (ctx w).
Proof. unfold interleave. destruct (arrivals (ctx w)); auto. Qed.

(** [flush] only ever adds to the traces. *)
Lemma flush_loop_appends env fuel : forall w,
  exists written notified,
    upserts (ctx (snd (flush_loop env fuel w))) = upserts (ctx w) ++ written
    /\ emitted (ctx (snd (flush_loop env fuel w))) = emitted (ctx w) ++ notified.
Proof.
  induction fuel as [|fuel IH]; intros w.
  - exists [], []. simpl. destruct (_buffer (self w)); simpl; rewrite !app_nil_r; auto.
  - destruct (_buffer (self w)) as [|s batch] eqn:Hbuf.
    { rewrite flush_loop_empty by exact Hbuf. exists [], []. simpl.
      rewrite !app_nil_r; auto. }
    destruct (config env) as [cfg|] eqn:Hc.
    2:{ rewrite flush_loop_unconfigured; [|exact Hc|congruence].
        exists [], []. simpl. rewrite !app_nil_r; auto. }
    destruct (faults (ctx w)) as [|[e|] rest] eqn:Hf.
    + rewrite (flush_loop_turn env cfg); [|exact Hc|congruence|rewrite Hf; reflexivity].
      destruct (IH (after_turn env cfg w)) as (wr & no & Hu & He).
      rewrite Hu, He. simpl. rewrite <- !app_assoc. eauto.
    + simpl. rewrite Hbuf.
      rewrite (adapt_faulted env cfg (s :: batch) (on_self (set_buffer []) w) e rest Hc Hf).
      exists [], []. cbn [snd].
      destruct (interleave_traces (on_ctx (set_faults rest) (on_self (set_buffer []) w)))
        as [Hu He].
      rewrite Hu, He. simpl. rewrite !app_nil_r; auto.
    + rewrite (flush_loop_turn env cfg); [|exact Hc|congruence|rewrite Hf; reflexivity].
      destruct (IH (after_turn env cfg w)) as (wr & no & Hu & He).
      rewrite Hu, He. simpl. rewrite <- !app_assoc. eauto.
Qed.

(** C7. A call of [flush] on a non-empty buffer always settles, and when it
    resolves the buffer is empty. Where the service has a [config] and the
    store write is accepted, the call takes one turn and goes on as the same
    call from the world after that turn: the turn takes the whole buffer as
    one batch, adapts every session of it, writes exactly the adapted records
    whose age is below [maxAge], then emits ['chat/message']; the sessions
    that were let in during the turn are the buffer the next turn starts
    from. Where the service has no [config], as the one [index.ts]
    constructs, the call takes the whole buffer and rejects with a TypeError
    at the retention test of the first record: nothing is written, nothing is
    emitted, and the batch is gone. *)
Theorem flush_takes_whole_batches (env : Env) (w : World) :
  _buffer (self w) <> [] ->
  hd None (faults (ctx w)) = None ->
  match config env with
  | Some cfg =>
      flush env w = flush env (after_turn env cfg w)
      /\ upserts (ctx (after_turn env cfg w))
         = upserts (ctx w)
           ++ [List.filter (kept env cfg) (adapted env (self w) (_buffer (self w)))]
      /\ tbl_chat_message (database (ctx (after_turn env cfg w)))
         = upsert_rows (tbl_chat_message (database (ctx w)))
             (List.filter (kept env cfg) (adapted env (self w) (_buffer (self w))))
      /\ (forall m,
            In m (List.filter (kept env cfg) (adapted env (self w) (_buffer (self w))))
            <-> In m (adapted env (self w) (_buffer (self w)))
                /\ exists limit,
                     maxAge cfg = Some limit
                     /\ Date_now env - Message.timestamp m < limit)
      /\ emitted (ctx (after_turn env cfg w))
         = emitted (ctx w)
           ++ [chat_message (adapted env (self w) (_buffer (self w)))
                 (data (self (after_turn env cfg w)))]
      /\ _buffer (self (after_turn env cfg w))
         = _buffer (arrive_all (hd [] (arrivals (ctx w))) (set_buffer [] (self w)))
      /\ arrivals (ctx (after_turn env cfg w)) = tl (arrivals (ctx w))
      /\ (_buffer (self (after_turn env cfg w)) = [] ->
          flush env w = (Resolved tt, after_turn env cfg w))
  | None =>
      flush env w = (Rejected TypeError, on_self (set_buffer []) w)
  end
  /\ fst (flush env w) <> Pending
  /\ (fst (flush env w) = Resolved tt -> _buffer (self (snd (flush env w))) = []).
Proof.
  intros Hb Hf. split.
  2:{ apply (flush_loop_settles env (S (length (arrivals (ctx w)))) w). left. lia. }
  destruct (config env) as [cfg|] eqn:Hc; [|apply flush_unconfigured; assumption].
  pose proof (flush_turn env cfg w Hc Hb Hf) as Hturn.
  split; [exact Hturn|].
  split; [reflexivity|]. split; [reflexivity|].
  split.
  { intros m. rewrite List.filter_In, kept_spec. reflexivity. }
  split; [reflexivity|]. split; [reflexivity|]. split; [reflexivity|].
  intros He. rewrite Hturn. unfold flush. apply flush_loop_empty, He.
Qed.

Lemma flush_takes_whole_batches_witness :
  flush built_env busy_world = (Rejected TypeError, on_self (set_buffer []) busy_world)
  /\ upserts (ctx (snd (flush built_env busy_world))) = []
  /\ emitted (ctx (snd (flush built_env busy_world))) = []
  /\ flush sample_env busy_world
     = flush sample_env (after_turn sample_env sample_config busy_world)
  /\ map Session.messageId (_buffer (self (after_turn sample_env sample_config busy_world)))
     = ["m3"%string]
  /\ map (map Message.messageId) (upserts (ctx (snd (flush sample_env busy_world))))
     = [["m2"%string]; ["m3"%string]]
  /\ fst (flush sample_env busy_world) = Resolved tt.
Proof.
  destruct (flush_takes_whole_batches built_env busy_world) as (Hbuilt & _);
    [discriminate|reflexivity|].
  destruct (flush_takes_whole_batches sample_env busy_world) as ((H & _) & _);
    [discriminate|reflexivity|].
  split; [exact Hbuilt|]. split; [rewrite Hbuilt; reflexivity|].
  split; [rewrite Hbuilt; reflexivity|].
  split; [exact H|]. repeat split; reflexivity.
Defined.

(** The first write and the first notification of a call of [flush]. *)
Lemma flush_first_write env cfg w :
  config env = Some cfg ->
  _buffer (self w) <> [] ->
  hd None (faults (ctx w)) = None ->
  exists written notified,
    upserts (ctx (snd (flush env w)))
    = upserts (ctx w)
      ++ List.filter (kept env cfg) (adapted env (self w) (_buffer (self w))) :: written
    /\ emitted (ctx (snd (flush env w)))
       = emitted (ctx w)
         ++ chat_message (adapted env (self w) (_buffer (self w)))
              (data (self (after_turn env cfg w))) :: notified.
Proof.
  intros Hc Hb Hf. rewrite (flush_turn env cfg w Hc Hb Hf). unfold flush.
  destruct (flush_loop_appends env (S (length (arrivals (ctx (after_turn env cfg w)))))
              (after_turn env cfg w)) as (written & notified & Hu & He).
  exists written, notified.
  rewrite Hu, He. simpl. rewrite <- !app_assoc. simpl. auto.
Qed.

(** C10. Where the service has a [config], in every turn of [flush] the
    ['chat/message'] notification holds every adapted record of the batch,
    while the store write holds only the retained ones: an adapted record
    that is too old is notified and not written. Where the service has no
    [config], as the one [index.ts] constructs, the retention test throws
    before the write, and no notification follows. *)
Theorem notification_holds_all_adapted (env : Env) (w : World) :
  _buffer (self w) <> [] ->
  hd None (faults (ctx w)) = None ->
  match config env with
  | Some cfg =>
      exists channel written notified,
        upserts (ctx (snd (flush env w)))
        = upserts (ctx w)
          ++ List.filter (kept env cfg) (adapted env (self w) (_buffer (self w)))
             :: written
        /\ emitted (ctx (snd (flush env w)))
           = emitted (ctx w)
             ++ chat_message (adapted env (self w) (_buffer (self w))) channel :: notified
        /\ (forall m,
              In m (List.filter (kept env cfg) (adapted env (self w) (_buffer (self w)))) ->
              In m (adapted env (self w) (_buffer (self w))))
        /\ (forall m,
              In m (adapted env (self w) (_buffer (self w))) ->
              kept env cfg m = false ->
              ~ In m (List.filter (kept env cfg)
                        (adapted env (self w) (_buffer (self w)))))
  | None =>
      fst (flush env w) = Rejected TypeError
      /\ upserts (ctx (snd (flush env w))) = upserts (ctx w)
      /\ emitted (ctx (snd (flush env w))) = emitted (ctx w)
  end.
Proof.
  intros Hb Hf. destruct (config env) as [cfg|] eqn:Hc.
  - destruct (flush_first_write env cfg w Hc Hb Hf) as (written & notified & Hu & He).
    exists (data (self (after_turn env cfg w))), written, notified.
    split; [exact Hu|]. split; [exact He|]. split.
    + intros m Hm. apply filter_In in Hm. tauto.
    + intros m _ Hr Hm. apply filter_In in Hm. destruct Hm as [_ Hm]. congruence.
  - rewrite (flush_unconfigured env w Hc Hb). repeat split; reflexivity.
Qed.

Lemma notification_holds_all_adapted_witness :
  (exists old,
     In old (adapted sample_env (self busy_world) (_buffer (self busy_world)))
     /\ Message.messageId old = "m1"%string
     /\ ~ In old (List.filter (kept sample_env sample_config)
                    (adapted sample_env (self busy_world) (_buffer (self busy_world)))))
  /\ fst (flush built_env busy_world) = Rejected TypeError
  /\ emitted (ctx (snd (flush built_env busy_world))) = emitted (ctx busy_world).
Proof.
  destruct (notification_holds_all_adapted sample_env busy_world)
    as (channel & written & notified & _ & _ & _ & Hdrop);
    [discriminate|reflexivity|].
  destruct (notification_holds_all_adapted built_env busy_world)
    as (Hrej & _ & Hem); [discriminate|reflexivity|].
  split; [|split; [exact Hrej|exact Hem]].
  exists (sample_adapt (event "A" "m1" 800) "p" "g").
  split; [left; reflexivity|]. split; [reflexivity|].
  apply Hdrop; [left; reflexivity|reflexivity].
Defined.

(** The service as [index.ts] constructs it, on the first session of a
    channel: [#onMessage] fulfils, the channel emits ['chat/channel'], then
    the retention test of [adapt] throws on the missing [config]; nothing is
    written, no ['chat/message'] is emitted, and the channel is FAILED. *)
Example constructed_service_stores_nothing :
  fst (onMessage built_env guild_event idle_service) = Resolved tt
  /\ status <$> (_channels (snd (onMessage built_env guild_event idle_service))
                   !! "p:c"%string) = Some FAILED
  /\ upserts (service_ctx (snd (onMessage built_env guild_event idle_service))) = []
  /\ tbl_chat_message
       (database (service_ctx (snd (onMessage built_env guild_event idle_service)))) = []
  /\ warned (service_ctx (snd (onMessage built_env guild_event idle_service)))
     = [TypeError]
  /\ map is_chat
       (emitted (service_ctx (snd (onMessage built_env guild_event idle_service))))
     = [true]
  /\ notified_records
       (emitted (service_ctx (snd (onMessage built_env guild_event idle_service)))) = [].
Proof. repeat split; vm_compute; reflexivity. Qed.

(** ** Backfill *)

Lemma scan_spec rear l : forall buffer,
  scan rear l buffer = (has_rear rear l, rev (until_rear rear l) ++ buffer).
Proof.
  induction l as [|m rest IH]; intros buffer; simpl; [reflexivity|].
  destruct (String.eqb (Session.messageId m) rear); simpl; [reflexivity|].
  rewrite IH, <- app_assoc. reflexivity.
Qed.

Lemma has_rear_rev rear page : has_rear rear (rev page) = has_rear rear page.
Proof.
  unfold has_rear. induction page as [|m rest IH]; simpl; [reflexivity|].
  rewrite existsb_app, IH. simpl. rewrite orb_false_r. apply orb_comm.
Qed.

Lemma until_rear_absent rear l : has_rear rear l = false -> until_rear rear l = l.
Proof.
  unfold has_rear. induction l as [|m rest IH]; simpl; [reflexivity|].
  destruct (String.eqb (Session.messageId m) rear); simpl; [discriminate|].
  intros H. rewrite IH by exact H. reflexivity.
Qed.

Lemma until_rear_prefix rear l : exists rest, l = until_rear rear l ++ rest.
Proof.
  induction l as [|m tail [rest IH]]; simpl.
  - exists []. reflexivity.
  - destruct (String.eqb (Session.messageId m) rear).
    + exists (m :: tail). reflexivity.
    + exists rest. simpl. rewrite <- IH. reflexivity.
Qed.

Lemma after_rear_suffix rear page : exists older, page = older ++ after_rear rear page.
Proof.
  destruct (until_rear_prefix rear (rev page)) as [rest H].
  exists (rev rest). unfold after_rear.
  rewrite <- rev_app_distr, <- H, rev_involutive. reflexivity.
Qed.

Lemma until_rear_excludes rear l :
  Forall (fun m => Session.messageId m <> rear) (until_rear rear l).
Proof.
  induction l as [|m rest IH]; simpl; [constructor|].
  destruct (String.eqb_spec (Session.messageId m) rear); constructor; assumption.
Qed.

Lemma has_rear_nonempty rear page : has_rear rear page = true -> page <> [].
Proof. intros H ->. discriminate. Qed.

(** One turn of the loop on a page without [rear]: the whole page goes in
    front of the buffer, in its own order. *)
Lemma syncHistory_loop_page fuel channelId rear next page rest w :
  remote (ctx w) = Resolved page :: rest ->
  page <> [] -> has_rear rear page = false ->
  syncHistory_loop (S fuel) true channelId rear next w
  = syncHistory_loop fuel true channelId rear
      (option_map Session.messageId (head page))
      (mkWorld (set_buffer (page ++ _buffer (self w)) (self w))
         (set_remote rest (set_requested (requested (ctx w) ++ [(channelId, next)]) (ctx w)))).
Proof.
  intros Hr Hne Hno. simpl. unfold getMessageList. simpl. rewrite Hr.
  destruct page as [|first page']; [contradiction|].
  rewrite scan_spec, has_rear_rev, Hno.
  rewrite until_rear_absent by (rewrite has_rear_rev; exact Hno).
  rewrite rev_involutive. reflexivity.
Qed.

(** The turn on the page that holds [rear] ends the loop. *)
Lemma syncHistory_loop_final fuel channelId rear next page rest w :
  remote (ctx w) = Resolved page :: rest ->
  has_rear rear page = true ->
  syncHistory_loop (S fuel) true channelId rear next w
  = (Resolved tt,
     mkWorld (set_buffer (after_rear rear page ++ _buffer (self w)) (self w))
       (set_remote rest (set_requested (requested (ctx w) ++ [(channelId, next)]) (ctx w)))).
Proof.
  intros Hr Hyes. simpl. unfold getMessageList. simpl. rewrite Hr.
  destruct page as [|first page']; [discriminate|].
  rewrite scan_spec, has_rear_rev, Hyes. reflexivity.
Qed.

Lemma syncHistory_loop_pages channelId rear before : forall fuel next final rest w,
  (length before < fuel)%nat ->
  remote (ctx w) = map Resolved (before ++ [final]) ++ rest ->
  Forall (fun page => page <> [] /\ has_rear rear page = false) before ->
  has_rear rear final = true ->
  syncHistory_loop fuel true channelId rear next w
  = (Resolved tt,
     mkWorld
       (set_buffer (after_rear rear final ++ concat (rev before) ++ _buffer (self w))
          (self w))
       (set_remote rest
          (set_requested
             (requested (ctx w) ++ cursors channelId next (before ++ [final]))
             (ctx w)))).
Proof.
  induction before as [|page before IH]; intros fuel next final rest w Hfuel Hr Hall Hfin.
  - destruct fuel as [|fuel]; [inversion Hfuel|].
    simpl in Hr. rewrite (syncHistory_loop_final fuel channelId rear next final rest w Hr Hfin).
    reflexivity.
  - destruct fuel as [|fuel]; [inversion Hfuel|].
    inversion Hall as [|? ? [Hne Hno] Hall']; subst.
    simpl in Hr.
    rewrite (syncHistory_loop_page fuel channelId rear next page _ w Hr Hne Hno).
    rewrite (IH fuel _ final rest); simpl; try assumption; [|simpl in Hfuel; lia|reflexivity].
    simpl. rewrite concat_app. simpl. rewrite app_nil_r, <- !app_assoc.
    reflexivity.
Qed.

(** *** Time order *)

Lemma increasing_Sorted times : increasing times = true <-> Sorted Z.lt times.
Proof.
  induction times as [|a rest IH]; simpl.
  - split; [constructor|reflexivity].
  - destruct rest as [|b rest'].
    + split; [repeat constructor|reflexivity].
    + rewrite andb_true_iff, Z.ltb_lt, IH. split.
      * intros [Hab Hs]. constructor; [exact Hs|constructor; exact Hab].
      * intros Hs. inversion Hs as [|? ? Hs' Hhd]; subst.
        inversion Hhd; subst. auto.
Qed.

Lemma increasing_StronglySorted times :
  increasing times = true <-> StronglySorted Z.lt times.
Proof.
  rewrite increasing_Sorted. split.
  - apply Sorted.Sorted_StronglySorted. intros x y z. apply Z.lt_trans.
  - apply StronglySorted_Sorted.
Qed.

Lemma StronglySorted_suffix (l1 l2 : list Z) :
  StronglySorted Z.lt (l1 ++ l2) -> StronglySorted Z.lt l2.
Proof.
  induction l1 as [|a l1 IH]; simpl; [auto|].
  intros H. apply StronglySorted_inv in H. tauto.
Qed.

Lemma StronglySorted_map_filter {A} (f : A -> Z) (keep : A -> bool) (l : list A) :
  StronglySorted Z.lt (map f l) -> StronglySorted Z.lt (map f (List.filter keep l)).
Proof.
  induction l as [|x l IH]; simpl; [auto|].
  intros H. apply StronglySorted_inv in H. destruct H as [Hs Hall].
  destruct (keep x); simpl; [|auto].
  constructor; [auto|].
  rewrite List.Forall_forall in *. intros t Ht. apply Hall.
  apply in_map_iff in Ht. destruct Ht as (y & Hy & Hin).
  apply List.filter_In in Hin. apply in_map_iff. exists y. tauto.
Qed.

Lemma increasing_suffix (l1 l2 : list Z) :
  increasing (l1 ++ l2) = true -> increasing l2 = true.
Proof. rewrite !increasing_StronglySorted. apply StronglySorted_suffix. Qed.

Lemma adapted_timestamps env c buffer :
  (forall s p g, Message.timestamp (Message_adapt env s p g) = Session.timestamp s) ->
  map Message.timestamp (adapted env c buffer) = map Session.timestamp buffer.
Proof.
  intros H. unfold adapted. rewrite map_map. apply map_ext. intros s. apply H.
Qed.

Lemma map_filter_adapted env c keep buffer :
  List.filter keep (adapted env c buffer)
  = adapted env c
      (List.filter (fun s => keep (Message_adapt env s (platform (data c)) (guildId (data c))))
         buffer).
Proof.
  unfold adapted. induction buffer as [|s rest IH]; simpl; [reflexivity|].
  destruct (keep _); simpl; rewrite IH; reflexivity.
Qed.

(** ** History on demand *)



Lemma select_quiet desc limit w :
  faults (ctx w) = [] ->
  select desc limit w
  = (Resolved (select_rows (data (self w)) desc limit (database (ctx w))), w).
Proof. intros Hf. unfold select, db_call. rewrite Hf. reflexivity. Qed.














(** ** Further facts about the loops *)

(** As long as the remote answers with non-empty pages that do not hold
    [rear], the loop of [syncHistory] asks for the next page. *)
Lemma syncHistory_loop_keeps_asking channelId rear pages : forall fuel next w,
  remote (ctx w) = map Resolved pages ->
  Forall (fun page => page <> [] /\ has_rear rear page = false) pages ->
  fst (syncHistory_loop fuel true channelId rear next w) = Pending.
Proof.
  induction pages as [|page pages IH]; intros fuel next w Hr Hall.
  - destruct fuel as [|fuel]; [reflexivity|].
    simpl. unfold getMessageList. simpl. simpl in Hr. rewrite Hr. reflexivity.
  - destruct fuel as [|fuel]; [reflexivity|].
    inversion Hall as [|? ? [Hne Hno] Hall']; subst. simpl in Hr.
    rewrite (syncHistory_loop_page fuel channelId rear next page _ w Hr Hne Hno).
    apply IH; [reflexivity|exact Hall'].
Qed.

Lemma backfill_keeps_asking env rear next pages w :
  bots env (bot_key (data (self w))) = true ->
  remote (ctx w) = map Resolved pages ->
  Forall (fun page => page <> [] /\ has_rear rear page = false) pages ->
  fst (backfill env rear next w) = Pending.
Proof.
  intros Hbot Hr Hall. unfold backfill. rewrite Hbot.
  apply (syncHistory_loop_keeps_asking _ rear pages); assumption.
Qed.

(** Whatever the callback throws, [ensure] logs it and marks the channel
    FAILED, and sends no notification of its own; the error is logged once
    more for every concurrent call that waited for the callback. *)
Lemma ensure_catches {A} (callback : Task A) w e w1 :
  status (self w) <> FAILED -> stopped (ctx w) = false ->
  callback (on_ctx (set_awaiting 0) w) = (Rejected e, w1) ->
  fst (ensure callback w) = Resolved None
  /\ status (self (snd (ensure callback w))) = FAILED
  /\ warned (ctx (snd (ensure callback w)))
     = warned (ctx w1) ++ repeat e (S (awaiting (ctx w1)))
  /\ emitted (ctx (snd (ensure callback w))) = emitted (ctx w1).
Proof.
  intros Hs Hstop Hc. unfold ensure. rewrite Hstop, Hc.
  destruct (status (self w)); simpl; auto. contradiction.
Qed.

(** When the store holds [count] rows or more, [getMessages] returns the
    last [count] of them and asks the remote for nothing. *)
Lemma getMessages_local env count w :
  faults (ctx w) = [] ->
  (count <= length (local_rows count w))%nat ->
  getMessages env count w = (Resolved (local_rows count w), w).
Proof.
  intros Hf Hlen. unfold getMessages. unfold bind. rewrite select_quiet by exact Hf.
  fold (local_rows count w). apply Nat.ltb_ge in Hlen. rewrite Hlen. reflexivity.
Qed.

(** ** The scenarios of the design document *)

(** Scenario A: the store is empty and [m5] comes in. *)
Example scenario_A_runs :
  status (self (snd (queue sample_env (event "A" "m5" 950) fresh_world))) = SYNCED
  /\ map Message.messageId
       (tbl_chat_message (database (ctx
          (snd (queue sample_env (event "A" "m5" 950) fresh_world)))))
     = ["m5"%string]
  /\ requested (ctx (snd (queue sample_env (event "A" "m5" 950) fresh_world))) = [].
Proof. repeat split; reflexivity. Qed.

(** Scenario B, with the pages oldest first. *)
Example scenario_B_runs :
  status (self (snd (queue sample_env (event "A" "m7" 970) scenario_B_fresh))) = SYNCED
  /\ map Message.messageId
       (tbl_chat_message (database (ctx
          (snd (queue sample_env (event "A" "m7" 970) scenario_B_fresh)))))
     = ["m1"; "m2"; "m3"; "m4"; "m5"; "m6"; "m7"]%string.
Proof. split; vm_compute; reflexivity. Qed.

(** Scenario C: a session of bot [A], then one of bot [B]. *)
Example scenario_C_runs :
  map Message.selfId
    (tbl_chat_message (database (ctx
       (queue_all sample_env [event "A" "m1" 950; event "B" "m2" 960] fresh_world))))
  = ["A"%string].
Proof. vm_compute. reflexivity. Qed.

(** Scenario D: the write of the backfill rejects, then [m10] comes in. *)
Example scenario_D_runs :
  status (self (snd (queue sample_env (event "A" "m9" 990) scenario_D))) = FAILED
  /\ upserts (ctx (queue_all sample_env [event "A" "m9" 990; event "A" "m10" 995]
                     scenario_D)) = [].
Proof. split; vm_compute; reflexivity. Qed.

(** * Further properties of the sources *)

(** ** What [accept] and the store write leave alone *)

Lemma accept_initial s c : initial (data (snd (accept s c))) = initial (data c).
Proof.
  unfold accept.
  destruct (truthy (assignee (data c))); simpl;
    [destruct (differs _ _); simpl|];
    try destruct (truthy (Session.channelName s)); reflexivity.
Qed.

Lemma accept_control s c :
  status (snd (accept s c)) = status c
  /\ _initTask (snd (accept s c)) = _initTask c
  /\ _queueTask (snd (accept s c)) = _queueTask c
  /\ _buffer (snd (accept s c)) = _buffer c.
Proof.
  unfold accept.
  destruct (truthy (assignee (data c))); simpl;
    [destruct (differs _ _); simpl|];
    try destruct (truthy (Session.channelName s)); simpl; auto.
Qed.

Lemma arrive_control s c :
  status (arrive s c) = status c
  /\ _initTask (arrive s c) = _initTask c
  /\ _queueTask (arrive s c) = _queueTask c.
Proof.
  unfold arrive. destruct (accept_control s c) as (H1 & H2 & H3 & _).
  destruct (accept s c) as [[|] c1]; simpl in *; auto.
Qed.

Lemma arrive_all_control sessions : forall c,
  status (arrive_all sessions c) = status c
  /\ _initTask (arrive_all sessions c) = _initTask c
  /\ _queueTask (arrive_all sessions c) = _queueTask c.
Proof.
  induction sessions as [|s rest IH]; intros c; [auto|].
  change (arrive_all (s :: rest) c) with (arrive_all rest (arrive s c)).
  destruct (IH (arrive s c)) as (H1 & H2 & H3).
  destruct (arrive_control s c) as (H4 & H5 & H6).
  repeat split; congruence.
Qed.

(** On a channel whose assignee is set, [arrive] appends exactly the
    sessions of that sender. *)
Lemma arrive_owned a s c :
  assignee (data c) = Some a -> a <> EmptyString ->
  assignee (data (arrive s c)) = Some a
  /\ _buffer (arrive s c) = _buffer c ++ (if from_assignee a s then [s] else []).
Proof.
  intros Ha Hne. unfold arrive, accept, from_assignee.
  rewrite Ha, (truthy_Some a Hne). simpl.
  rewrite String.eqb_sym.
  destruct (String.eqb (Session.selfId s) a); simpl.
  - destruct (truthy (Session.channelName s)); simpl; auto.
  - rewrite app_nil_r. auto.
Qed.

Lemma arrive_all_owned a sessions : forall c,
  assignee (data c) = Some a -> a <> EmptyString ->
  assignee (data (arrive_all sessions c)) = Some a
  /\ _buffer (arrive_all sessions c)
     = _buffer c ++ List.filter (from_assignee a) sessions.
Proof.
  induction sessions as [|s rest IH]; intros c Ha Hne.
  - simpl. rewrite app_nil_r. auto.
  - change (arrive_all (s :: rest) c) with (arrive_all rest (arrive s c)).
    destruct (arrive_owned a s c Ha Hne) as [Ha1 Hb1].
    destruct (IH (arrive s c) Ha1 Hne) as [Ha2 Hb2].
    split; [exact Ha2|]. rewrite Hb2, Hb1. simpl.
    destruct (from_assignee a s); simpl; rewrite <- app_assoc; reflexivity.
Qed.

(** ** A channel that has failed or was stopped *)

Lemma queue_halted env s w :
  halted w -> queue env s w = (Resolved tt, mkWorld (arrive s (self w)) (ctx w)).
Proof.
  intros Hh. unfold queue, arrive.
  destruct (accept_control s (self w)) as (Hst & _).
  destruct (accept s (self w)) as [[|] c]; simpl in *; [reflexivity|].
  unfold bind, ensure; simpl. rewrite Hst.
  destruct Hh as [Hf|Hs].
  - rewrite Hf. reflexivity.
  - rewrite Hs. destruct (SyncStatus_eqb (status (self w)) FAILED); reflexivity.
Qed.

Lemma queue_all_halted env sessions : forall w,
  halted w ->
  queue_all env sessions w = mkWorld (arrive_all sessions (self w)) (ctx w).
Proof.
  induction sessions as [|s rest IH]; intros w Hh.
  - destruct w; reflexivity.
  - simpl queue_all. rewrite (queue_halted env s w Hh). simpl.
    rewrite IH; [reflexivity|].
    unfold halted in *. simpl. destruct (arrive_control s (self w)) as (Hst & _).
    rewrite Hst. exact Hh.
Qed.

(** X1. Once the service is stopped or the channel has failed, [queue]
    still runs [accept] and still pushes: whatever sessions are queued, the
    context (store, notifications, remote) and the status stay as they were,
    and every session of the assignee is added to the buffer, where it stays
    unwritten. *)
Theorem halted_channel_only_buffers (env : Env) (a : string)
    (sessions : list Session.t) (w : World) :
  halted w ->
  assignee (data (self w)) = Some a ->
  a <> EmptyString ->
  ctx (queue_all env sessions w) = ctx w
  /\ status (self (queue_all env sessions w)) = status (self w)
  /\ _buffer (self (queue_all env sessions w))
     = _buffer (self w) ++ List.filter (from_assignee a) sessions.
Proof.
  intros Hh Ha Hne. rewrite (queue_all_halted env sessions w Hh). simpl.
  split; [reflexivity|].
  split; [apply arrive_all_control|].
  apply (arrive_all_owned a sessions (self w) Ha Hne).
Qed.

Lemma halted_channel_only_buffers_witness :
  upserts (ctx (queue_all sample_env
                  [event "A" "m1" 950; event "B" "m2" 960; event "A" "m3" 970]
                  stopped_world)) = []
  /\ map Session.messageId
       (_buffer (self (queue_all sample_env
                         [event "A" "m1" 950; event "B" "m2" 960; event "A" "m3" 970]
                         stopped_world)))
     = ["m1"; "m3"]%string.
Proof.
  destruct (halted_channel_only_buffers sample_env "A"
              [event "A" "m1" 950; event "B" "m2" 960; event "A" "m3" 970]
              stopped_world) as (Hc & _ & Hb).
  - right. reflexivity.
  - reflexivity.
  - discriminate.
  - rewrite Hc, Hb. split; reflexivity.
Defined.

(** ** The initialisation runs once *)

(** [init] is memoised: a second call, whatever session it is given,
    returns the outcome of the first and leaves the world as the first call
    left it. *)
Lemma init_runs_once (env : Env) (first second : option Session.t) (w : World) :
  init env second (snd (init env first w))
  = (fst (init env first w), snd (init env first w)).
Proof.
  unfold init. destruct (_initTask (self w)) as [settled|] eqn:Ht; simpl.
  - rewrite Ht. reflexivity.
  - destruct (_init env first w) as [settled w1]. reflexivity.
Qed.

Lemma quiet_refl w : quiet w w.
Proof. unfold quiet. repeat split; reflexivity. Qed.

Lemma quiet_trans w1 w2 w3 : quiet w1 w2 -> quiet w2 w3 -> quiet w1 w3.
Proof.
  unfold quiet. intros (A1 & A2 & A3 & A4 & A5 & A6 & A7 & A8)
    (B1 & B2 & B3 & B4 & B5 & B6 & B7 & B8).
  repeat split; congruence.
Qed.

Lemma after_turn_quiet env cfg w : quiet w (after_turn env cfg w).
Proof.
  unfold quiet, after_turn, after_adapt. simpl.
  destruct (arrive_all_control (hd [] (arrivals (ctx w))) (set_buffer [] (self w)))
    as (H1 & H2 & H3).
  repeat split; assumption.
Qed.

Lemma interleave_quiet w : quiet w (snd (interleave w)).
Proof.
  unfold interleave. destruct (arrivals (ctx w)) as [|a rest]; [apply quiet_refl|].
  unfold quiet. simpl.
  destruct (arrive_all_control a (self w)) as (H1 & H2 & H3).
  repeat split; assumption.
Qed.

Lemma flush_loop_quiet env fuel : forall w, quiet w (snd (flush_loop env fuel w)).
Proof.
  induction fuel as [|fuel IH]; intros w.
  - simpl. destruct (_buffer (self w)); apply quiet_refl.
  - destruct (_buffer (self w)) as [|s batch] eqn:Hbuf.
    { rewrite flush_loop_empty by exact Hbuf. apply quiet_refl. }
    destruct (config env) as [cfg|] eqn:Hc.
    2:{ rewrite flush_loop_unconfigured; [|exact Hc|congruence].
        unfold quiet. simpl. repeat split; reflexivity. }
    destruct (faults (ctx w)) as [|[e|] rest] eqn:Hf.
    + rewrite (flush_loop_turn env cfg); [|exact Hc|congruence|rewrite Hf; reflexivity].
      eapply quiet_trans; [apply after_turn_quiet|apply IH].
    + simpl. rewrite Hbuf.
      rewrite (adapt_faulted env cfg (s :: batch) (on_self (set_buffer []) w) e rest Hc Hf).
      eapply quiet_trans; [|apply interleave_quiet].
      unfold quiet. simpl. repeat split; reflexivity.
    + rewrite (flush_loop_turn env cfg); [|exact Hc|congruence|rewrite Hf; reflexivity].
      eapply quiet_trans; [apply after_turn_quiet|apply IH].
Qed.

Lemma flush_quiet env w : quiet w (snd (flush env w)).
Proof. apply flush_loop_quiet. Qed.

(** A call of [queue] on a channel whose initialisation has been started
    asks the remote for nothing and leaves the initialisation as it is. *)
Lemma queue_initialised env s w :
  initialised (self w) ->
  initialised (self (snd (queue env s w)))
  /\ requested (ctx (snd (queue env s w))) = requested (ctx w)
  /\ remote (ctx (snd (queue env s w))) = remote (ctx w)
  /\ _initTask (self (snd (queue env s w))) = _initTask (self w).
Proof.
  intros Hi. unfold queue.
  destruct (accept_control s (self w)) as (Hst & Hit & Hqt & _).
  destruct (accept s (self w)) as [[|] c]; simpl in *.
  { unfold initialised. rewrite Hst, Hit. auto. }
  assert (Hi' : initialised c) by (unfold initialised; rewrite Hst, Hit; exact Hi).
  clear Hi. unfold bind, ensure, ret. simpl.
  destruct (SyncStatus_eqb (status c) FAILED) eqn:Hfailed; simpl; [auto|].
  destruct (stopped (ctx w)); simpl; [auto|].
  unfold queue_callback, bind. simpl.
  destruct (status c) eqn:Hs; simpl in *; try discriminate.
  - (* SYNCING: the task is there already *)
    destruct Hi' as [Hn|Hn]; [|congruence].
    unfold init. simpl. destruct (_initTask c) as [settled|] eqn:Htask; [|congruence].
    assert (Hleft : forall c', _initTask c' = Some settled -> initialised c').
    { intros c' H. left. rewrite H. discriminate. }
    destruct settled as [[]|e|]; simpl; rewrite ?Hs; simpl;
      (split; [apply Hleft; simpl; exact Htask|repeat split; congruence]).
  - (* SYNCED: only a flush *)
    assert (Hright : forall c', status c' <> SYNCING -> initialised c')
      by (intros c' H; right; exact H).
    unfold then_flush. simpl. rewrite ?Hs. simpl.
    destruct (_queueTask c) as [e|]; simpl.
    { split; [apply Hright; simpl; congruence|repeat split; congruence]. }
    pose proof (flush_quiet env (on_ctx (set_awaiting 0) (mkWorld (set_buffer (_buffer c ++ [s]) c) (ctx w))))
      as (Q1 & Q2 & Q3 & Q4 & Q5 & _).
    destruct (flush env (on_ctx (set_awaiting 0) (mkWorld (set_buffer (_buffer c ++ [s]) c) (ctx w))))
      as [[[]|e|] w1]; simpl in *;
      (split; [apply Hright; simpl; congruence|repeat split; congruence]).
Qed.

Lemma queue_all_initialised env sessions : forall w,
  initialised (self w) ->
  requested (ctx (queue_all env sessions w)) = requested (ctx w)
  /\ remote (ctx (queue_all env sessions w)) = remote (ctx w)
  /\ _initTask (self (queue_all env sessions w)) = _initTask (self w).
Proof.
  induction sessions as [|s rest IH]; intros w Hi; simpl; [auto|].
  destruct (queue_initialised env s w Hi) as (Hi' & Hr & Hm & Ht).
  destruct (IH _ Hi') as (H1 & H2 & H3).
  repeat split; congruence.
Qed.

(** The first call of [queue] that [accept] lets in on a running service
    starts the initialisation, unless the channel has failed already. *)
Lemma queue_initialises env s w :
  fst (accept s (self w)) = false -> stopped (ctx w) = false ->
  initialised (self (snd (queue env s w))).
Proof.
  intros Hacc Hstop. unfold queue.
  destruct (accept_control s (self w)) as (Hst & Hit & Hqt & _).
  destruct (accept s (self w)) as [rejected c]; simpl in *. subst rejected.
  unfold bind, ensure, ret. simpl.
  destruct (status c) eqn:Hs; simpl; rewrite ?Hstop; simpl.
  - (* SYNCING *)
    unfold queue_callback, bind. simpl. rewrite Hs. simpl.
    unfold init. simpl.
    destruct (_initTask c) as [settled|] eqn:Htask.
    + destruct settled as [[]|e|]; simpl; rewrite ?Hs; simpl;
        left; simpl; congruence.
    + destruct (_init env (Some s) (on_ctx (set_awaiting 0) (mkWorld (set_buffer (_buffer c ++ [s]) c) (ctx w))))
        as [settled w1]. simpl.
      destruct settled as [[]|e|]; simpl; try (left; simpl; congruence).
      destruct (SyncStatus_eqb (status (self w1)) SYNCED); simpl;
        [|left; simpl; congruence].
      unfold then_flush. simpl.
      destruct (_queueTask (self w1)) as [e|]; simpl; [left; simpl; congruence|].
      pose proof (flush_quiet env (on_self (set_initTask (Some (Resolved tt))) w1))
        as (_ & Q2 & _).
      destruct (flush env (on_self (set_initTask (Some (Resolved tt))) w1))
        as [[[]|e|] w2]; simpl in *; left; simpl; congruence.
  - (* SYNCED *)
    unfold queue_callback, bind. simpl. rewrite Hs. simpl.
    unfold then_flush. simpl. rewrite ?Hs. simpl.
    destruct (_queueTask c) as [e|]; simpl; [right; simpl; congruence|].
    pose proof (flush_quiet env (on_ctx (set_awaiting 0) (mkWorld (set_buffer (_buffer c ++ [s]) c) (ctx w))))
      as (Q1 & _).
    destruct (flush env (on_ctx (set_awaiting 0) (mkWorld (set_buffer (_buffer c ++ [s]) c) (ctx w))))
      as [[[]|e|] w1]; simpl in *; right; simpl; congruence.
  - (* FAILED *)
    right. simpl. congruence.
Qed.

(** X2. The remote is asked during the initialisation only: after the
    first call of [queue] that [accept] lets in on a running service,
    whatever sessions are queued leave the remote script and the log of
    [getMessageList] calls as that first call left them, and [_initTask] is
    never replaced. *)
Theorem backfill_happens_once (env : Env) (s : Session.t)
    (later : list Session.t) (w : World) :
  fst (accept s (self w)) = false ->
  stopped (ctx w) = false ->
  requested (ctx (queue_all env (s :: later) w)) = requested (ctx (snd (queue env s w)))
  /\ remote (ctx (queue_all env (s :: later) w)) = remote (ctx (snd (queue env s w)))
  /\ _initTask (self (queue_all env (s :: later) w))
     = _initTask (self (snd (queue env s w))).
Proof.
  intros Hacc Hstop. simpl.
  apply queue_all_initialised, queue_initialises; assumption.
Qed.

Lemma backfill_happens_once_witness :
  requested (ctx (queue_all sample_env
                    [event "A" "m7" 970; event "A" "m8" 980; event "A" "m9" 990]
                    scenario_B_fresh))
  = [(Some "c"%string, Some "m7"%string); (Some "c"%string, Some "m4"%string)].
Proof.
  destruct (backfill_happens_once sample_env (event "A" "m7" 970)
              [event "A" "m8" 980; event "A" "m9" 990] scenario_B_fresh)
    as (Hreq & _).
  - reflexivity.
  - reflexivity.
  - rewrite Hreq. reflexivity.
Defined.

(** ** The registry: containment and isolation *)

Lemma ensure_never_rejects {A} (callback : Task A) w e :
  fst (ensure callback w) <> Rejected e.
Proof.
  unfold ensure.
  destruct (SyncStatus_eqb (status (self w)) FAILED); [discriminate|].
  destruct (stopped (ctx w)); [discriminate|].
  destruct (callback _) as [[a|e'|] w1]; discriminate.
Qed.

Lemma queue_never_rejects env s w e : fst (queue env s w) <> Rejected e.
Proof.
  unfold queue. destruct (accept s (self w)) as [[|] c]; [discriminate|].
  unfold bind.
  pose proof (ensure_never_rejects (queue_callback env s)
                (mkWorld (set_buffer (_buffer c ++ [s]) c) (ctx w))) as H.
  destruct (ensure (queue_callback env s) _) as [[o|e'|] w1]; simpl in *;
    try discriminate.
  intros _. apply (H e'). reflexivity.
Qed.

Lemma channel_of_lookup session (channels : gmap string SyncChannel) :
  exists c, channel_of session channels !! Session.cid session = Some c.
Proof.
  unfold channel_of. destruct (channels !! Session.cid session) as [c|] eqn:H.
  - exists c. exact H.
  - eexists. apply lookup_insert_eq.
Qed.

Lemma channel_of_other session (channels : gmap string SyncChannel) k :
  k <> Session.cid session -> channel_of session channels !! k = channels !! k.
Proof.
  intros Hk. unfold channel_of. destruct (channels !! Session.cid session); [reflexivity|].
  apply lookup_insert_ne. congruence.
Qed.

Lemma queried_facts s :
  _channels (queried s) = _channels s
  /\ database (service_ctx (queried s)) = database (service_ctx s)
  /\ upserts (service_ctx (queried s)) = upserts (service_ctx s)
  /\ emitted (service_ctx (queried s)) = emitted (service_ctx s)
  /\ warned (service_ctx (queried s)) = warned (service_ctx s)
  /\ requested (service_ctx (queried s)) = requested (service_ctx s)
  /\ remote (service_ctx (queried s)) = remote (service_ctx s)
  /\ stopped (service_ctx (queried s)) = stopped (service_ctx s).
Proof.
  unfold queried, service_db_call.
  destruct (faults (service_ctx s)) as [|[e|] rest]; simpl; repeat split; reflexivity.
Qed.

(** The two ways [#onMessage] can end: it stops after the query of the
    channel table, or it hands the session to the channel filed under
    [session.cid]. *)
Lemma onMessage_ends env session s :
  snd (onMessage env session s) = queried s
  \/ (getChannel env (Session.platform session) (Session.channelId session)
      = Some (Session.selfId session)
      /\ exists c,
           channel_of session (_channels s) !! Session.cid session = Some c
           /\ snd (onMessage env session s) = delegated env session c (queried s)).
Proof.
  unfold onMessage, queried, delegated, service_db_call.
  destruct (faults (service_ctx s)) as [|[e|] rest]; cbn [fst snd]; auto;
    (destruct (getChannel env _ _) as [a|] eqn:Hg; [|auto]);
    (destruct (String.eqb_spec a (Session.selfId session)) as [->|Hne];
       cbn [negb]; [|auto]);
    destruct (channel_of_lookup session (_channels s)) as [c Hc];
    cbn [_channels service_ctx]; rewrite Hc; right; split; try reflexivity;
    exists c; split; reflexivity.
Qed.

(** X3. [#onMessage] rejects in two cases only, and in both without
    touching any channel: when the query of the channel table rejects, with
    the error of that query, and when the query resolves with [undefined]
    because the table has no row for the channel, with the TypeError of the
    destructuring. In every other case it fulfils: [queue] is not awaited,
    and whatever goes wrong inside the channel (store, remote, missing bot,
    missing config) is caught there. *)
Theorem onMessage_contains_failures (env : Env) (session : Session.t)
    (s : MessageService) :
  match faults (service_ctx s) with
  | Some e :: rest =>
      onMessage env session s
      = (Rejected e, mkMessageService (_channels s) (set_faults rest (service_ctx s)))
  | _ =>
      match getChannel env (Session.platform session) (Session.channelId session) with
      | None =>
          fst (onMessage env session s) = Rejected TypeError
          /\ _channels (snd (onMessage env session s)) = _channels s
          /\ database (service_ctx (snd (onMessage env session s)))
             = database (service_ctx s)
          /\ warned (service_ctx (snd (onMessage env session s)))
             = warned (service_ctx s)
      | Some _ => fst (onMessage env session s) = Resolved tt
      end
  end.
Proof.
  unfold onMessage, service_db_call.
  destruct (faults (service_ctx s)) as [|[e|] rest]; [|reflexivity|];
    (destruct (getChannel env _ _) as [a|]; [|repeat split; reflexivity]);
    simpl; (destruct (negb _); [reflexivity|]);
    destruct (channel_of_lookup session (_channels s)) as [c Hc]; rewrite Hc;
    reflexivity.
Qed.

(** X4. [#onMessage] touches at most the channel filed under the session's
    key [session.cid]: every other entry of the registry is left as it was,
    whatever happens to the session; and when the sender is not the assignee
    the channel table names, no entry is created or changed at all. *)
Theorem onMessage_touches_one_channel (env : Env) (session : Session.t)
    (s : MessageService) :
  (forall k, k <> Session.cid session ->
             _channels (snd (onMessage env session s)) !! k = _channels s !! k)
  /\ (getChannel env (Session.platform session) (Session.channelId session)
      <> Some (Session.selfId session) ->
      _channels (snd (onMessage env session s)) = _channels s
      /\ upserts (service_ctx (snd (onMessage env session s))) = upserts (service_ctx s)
      /\ requested (service_ctx (snd (onMessage env session s)))
         = requested (service_ctx s)).
Proof.
  destruct (queried_facts s) as (Hch & _ & Hup & _ & _ & Hreq & _).
  destruct (onMessage_ends env session s) as [->|(Hg & c & Hc & ->)].
  - split; [intros k _; rewrite Hch; reflexivity|]. intros _. auto.
  - split; [|intros Hne; contradiction].
    intros k Hk. unfold delegated. cbn [_channels].
    rewrite lookup_insert_ne by congruence.
    rewrite Hch. apply channel_of_other, Hk.
Qed.

(** X5. The registry never replaces a channel: when the key of the session
    already holds a channel that has failed, [#onMessage] leaves a failed
    channel with the same identity there, and nothing is written, notified
    or fetched. *)
Theorem registry_keeps_failed_channel (env : Env) (session : Session.t)
    (s : MessageService) (c : SyncChannel) :
  _channels s !! Session.cid session = Some c ->
  status c = FAILED ->
  exists c',
    _channels (snd (onMessage env session s)) !! Session.cid session = Some c'
    /\ status c' = FAILED
    /\ evolves (data c) (data c')
    /\ database (service_ctx (snd (onMessage env session s))) = database (service_ctx s)
    /\ upserts (service_ctx (snd (onMessage env session s))) = upserts (service_ctx s)
    /\ emitted (service_ctx (snd (onMessage env session s))) = emitted (service_ctx s)
    /\ requested (service_ctx (snd (onMessage env session s)))
       = requested (service_ctx s).
Proof.
  intros Hc Hf.
  destruct (queried_facts s) as (Hch & Hdb & Hup & Hem & _ & Hreq & _).
  assert (Hco : channel_of session (_channels s) !! Session.cid session = Some c).
  { unfold channel_of. rewrite Hc. exact Hc. }
  destruct (onMessage_ends env session s) as [->|(_ & c0 & Hc0 & ->)].
  - exists c. rewrite Hch.
    split; [exact Hc|]. split; [exact Hf|]. split; [apply evolves_refl|]. auto.
  - assert (c0 = c) by congruence. subst c0.
    unfold delegated. cbn [_channels service_ctx].
    destruct (queue_failed env session (mkWorld c (service_ctx (queried s))) Hf)
      as (Hst & Hctx & _).
    pose proof (preserves_queue env session (mkWorld c (service_ctx (queried s)))) as Hev.
    unfold keeps_identity in Hev. simpl in Hev, Hctx.
    exists (self (snd (queue env session (mkWorld c (service_ctx (queried s)))))).
    rewrite lookup_insert_eq, Hctx. auto 10.
Qed.

Lemma registry_keeps_failed_channel_witness :
  exists c',
    _channels (snd (onMessage sample_env (event "A" "m10" 960) two_channel_service))
      !! "p:c"%string = Some c'
    /\ status c' = FAILED.
Proof.
  destruct (registry_keeps_failed_channel sample_env (event "A" "m10" 960)
              two_channel_service (self failed_world)) as (c' & H1 & H2 & _).
  - reflexivity.
  - reflexivity.
  - exists c'. split; [exact H1|exact H2].
Defined.

(** ** The first session of a channel *)

Lemma select_rows_evolves d d' desc n db :
  evolves d d' -> select_rows d' desc n db = select_rows d desc n db.
Proof.
  intros (Hp & _ & Hc & _). unfold select_rows.
  assert (Hw : forall m, where_channel d' m = where_channel d m)
    by (intros m; unfold where_channel; rewrite Hp, Hc; reflexivity).
  rewrite (List.filter_ext _ _ Hw). reflexivity.
Qed.

Lemma flush_once env cfg w :
  config env = Some cfg ->
  _buffer (self w) <> [] -> faults (ctx w) = [] -> arrivals (ctx w) = [] ->
  flush env w = (Resolved tt, after_turn env cfg w).
Proof.
  intros Hc Hb Hf Ha.
  rewrite (flush_turn env cfg); [|exact Hc|exact Hb|rewrite Hf; reflexivity].
  unfold flush. apply flush_loop_empty. rewrite after_turn_buffer, Ha. reflexivity.
Qed.

Lemma flush_nothing env w : _buffer (self w) = [] -> flush env w = (Resolved tt, w).
Proof. intros H. apply flush_loop_empty, H. Qed.

(** [_init] when the driver answers both queries. *)
Lemma _init_answered env session w :
  faults (ctx w) = [] ->
  _init env session w
  = match
      match head (select_rows (data (self w)) true 1 (database (ctx w))) with
      | Some final =>
          syncHistory env (Message.messageId final) (option_map Session.messageId session) w
      | None => (Resolved tt, w)
      end
    with
    | (Resolved _, w1) =>
        (Resolved tt,
         ready (option_map Message.messageId
                  (head (select_rows (data (self w)) false 1 (database (ctx w))))) w1)
    | (Rejected e, w1) => (Rejected e, w1)
    | (Pending, w1) => (Pending, w1)
    end.
Proof.
  intros Hf. unfold _init, select, db_call. rewrite Hf. simpl. rewrite Hf. simpl.
  unfold bind at 1.
  destruct (head (select_rows (data (self w)) true 1 (database (ctx w)))) as [final|];
    [destruct (syncHistory env _ _ w) as [[[]|e|] w1]|]; reflexivity.
Qed.

(** [queue] on a channel that has not started its initialisation, for a
    session [accept] lets in. *)
Lemma queue_starts env s w :
  fst (accept s (self w)) = false ->
  status (self w) = SYNCING -> _initTask (self w) = None ->
  stopped (ctx w) = false ->
  queue env s w
  = match _init env (Some s) (enqueued s w) with
    | (Resolved _, w1) =>
        if SyncStatus_eqb (status (self w1)) SYNCED then
          match then_flush env (on_self (set_initTask (Some (Resolved tt))) w1) with
          | (Resolved _, w2) => (Resolved tt, w2)
          | (Rejected e, w2) => (Resolved tt, caught e w2)
          | (Pending, w2) => (Pending, w2)
          end
        else (Resolved tt, on_self (set_initTask (Some (Resolved tt))) w1)
    | (Rejected e, w1) =>
        (Resolved tt, caught e (on_self (set_initTask (Some (Rejected e))) w1))
    | (Pending, w1) => (Pending, on_self (set_initTask (Some Pending)) w1)
    end.
Proof.
  intros Hacc Hs Hi Hstop. unfold queue, enqueued.
  destruct (accept_control s (self w)) as (Hst & Hit & _).
  destruct (accept s (self w)) as [rejected c]; simpl in *. subst rejected.
  rewrite Hs in Hst. rewrite Hi in Hit.
  unfold bind, ensure, queue_callback, bind, init. simpl.
  rewrite Hst, Hstop, Hit. simpl.
  destruct (_init env (Some s) _) as [[[]|e|] w1]; simpl; try reflexivity.
  destruct (SyncStatus_eqb (status (self w1)) SYNCED); simpl; [|reflexivity].
  destruct (then_flush env _) as [[[]|e|] w2]; reflexivity.
Qed.

Lemma adapted_evolves env c c' buffer :
  evolves (data c) (data c') -> adapted env c' buffer = adapted env c buffer.
Proof. intros (Hp & Hg & _). unfold adapted. rewrite Hp, Hg. reflexivity. Qed.

Lemma enqueued_facts s w :
  evolves (data (self w)) (data (self (enqueued s w)))
  /\ status (self (enqueued s w)) = status (self w)
  /\ _initTask (self (enqueued s w)) = _initTask (self w)
  /\ _queueTask (self (enqueued s w)) = _queueTask (self w)
  /\ _buffer (self (enqueued s w)) = _buffer (self w) ++ [s]
  /\ ctx (enqueued s w) = set_awaiting 0 (ctx w).
Proof.
  unfold enqueued. simpl.
  destruct (accept_control s (self w)) as (H1 & H2 & H3 & H4).
  pose proof (accept_evolves s (self w)) as He.
  rewrite H4. repeat split; auto; apply He.
Qed.

Lemma channel_rows_none d w :
  evolves (data (self w)) d -> channel_rows w = [] ->
  forall desc n, select_rows d desc n (database (ctx w)) = [].
Proof.
  intros He Hrows desc n. rewrite (select_rows_evolves _ _ desc n _ He).
  unfold select_rows. unfold channel_rows in Hrows. rewrite Hrows.
  destruct desc; simpl; apply firstn_nil.
Qed.

(** X6. The first session of a channel for which the store query selects no
    row: the initialisation asks the remote for nothing (no bot is even
    looked up), sets [initial] to undefined and emits ['chat/channel'], and
    the flush that follows takes the whole buffer. Where the service has a
    [config], the buffer is written in one batch, ['chat/message'] is
    emitted and the channel is SYNCED. Where it has none, as the service
    [index.ts] constructs, the retention test throws: nothing is written, no
    ['chat/message'] is emitted, the TypeError is logged and the channel is
    FAILED. *)
Theorem fresh_channel_syncs_without_remote (env : Env) (s : Session.t) (w : World) :
  fst (accept s (self w)) = false ->
  status (self w) = SYNCING ->
  _initTask (self w) = None ->
  _queueTask (self w) = None ->
  stopped (ctx w) = false ->
  faults (ctx w) = [] ->
  arrivals (ctx w) = [] ->
  channel_rows w = [] ->
  fst (queue env s w) = Resolved tt
  /\ _buffer (self (snd (queue env s w))) = []
  /\ initial (data (self (snd (queue env s w)))) = None
  /\ requested (ctx (snd (queue env s w))) = requested (ctx w)
  /\ remote (ctx (snd (queue env s w))) = remote (ctx w)
  /\ match config env with
     | Some cfg =>
         status (self (snd (queue env s w))) = SYNCED
         /\ warned (ctx (snd (queue env s w))) = warned (ctx w)
         /\ upserts (ctx (snd (queue env s w)))
            = upserts (ctx w)
              ++ [List.filter (kept env cfg)
                    (adapted env (self w) (_buffer (self w) ++ [s]))]
         /\ emitted (ctx (snd (queue env s w)))
            = emitted (ctx w)
              ++ [chat_channel (data (self (snd (queue env s w))));
                  chat_message (adapted env (self w) (_buffer (self w) ++ [s]))
                    (data (self (snd (queue env s w))))]
     | None =>
         status (self (snd (queue env s w))) = FAILED
         /\ warned (ctx (snd (queue env s w))) = warned (ctx w) ++ [TypeError]
         /\ upserts (ctx (snd (queue env s w))) = upserts (ctx w)
         /\ emitted (ctx (snd (queue env s w)))
            = emitted (ctx w) ++ [chat_channel (data (self (snd (queue env s w))))]
     end.
Proof.
  intros Hacc Hs Hi Hq Hstop Hf Ha Hrows.
  destruct (enqueued_facts s w) as (Hev & Est & Eit & Eqt & Ebuf & Ectx).
  pose (w1 := on_self (set_initTask (Some (Resolved tt))) (ready None (enqueued s w))).
  assert (Hw1b : _buffer (self w1) = _buffer (self w) ++ [s]) by exact Ebuf.
  assert (Hw1n : _buffer (self w1) <> []).
  { rewrite Hw1b. destruct (_buffer (self w)); discriminate. }
  assert (Hw1c : ctx w1
                 = set_emitted
                     (emitted (ctx w)
                      ++ [chat_channel (set_initial None (data (self (enqueued s w))))])
                     (set_awaiting 0 (ctx w))).
  { reflexivity. }
  assert (Hstart : queue env s w
                   = match then_flush env w1 with
                     | (Resolved _, w2) => (Resolved tt, w2)
                     | (Rejected e, w2) => (Resolved tt, caught e w2)
                     | (Pending, w2) => (Pending, w2)
                     end).
  { rewrite (queue_starts env s w Hacc Hs Hi Hstop).
    rewrite _init_answered by (rewrite Ectx; exact Hf).
    rewrite Ectx.
    change (database (set_awaiting 0 (ctx w))) with (database (ctx w)).
    rewrite !(channel_rows_none _ w Hev Hrows).
    change (head (@nil Message.t)) with (@None Message.t).
    cbv beta iota. simpl option_map.
    change (status (self (ready None (enqueued s w)))) with SYNCED.
    change (SyncStatus_eqb SYNCED SYNCED) with true. cbv iota. reflexivity. }
  assert (Hqt1 : _queueTask (self w1) = None).
  { change (_queueTask (self (enqueued s w)) = None). rewrite Eqt. exact Hq. }
  assert (Had : forall c, data c = data (self w1) ->
                  adapted env c (_buffer (self w) ++ [s])
                  = adapted env (self w) (_buffer (self w) ++ [s])).
  { intros c Hc. apply adapted_evolves. rewrite Hc.
    eapply evolves_trans; [exact Hev|]. unfold evolves. simpl. auto. }
  rewrite Hstart. unfold then_flush. rewrite Hqt1.
  destruct (config env) as [cfg|] eqn:Hc.
  - rewrite (flush_once env cfg w1 Hc Hw1n);
      [|rewrite Hw1c; exact Hf|rewrite Hw1c; exact Ha].
    cbn [fst snd].
    unfold after_turn, after_adapt. cbn [self ctx on_self on_ctx].
    rewrite Hw1c, Hw1b. cbn [arrivals set_emitted set_awaiting]. rewrite Ha.
    cbn [hd arrive_all fold_left]. simpl.
    pose proof (accept_evolves s (self w)) as (Hp & Hg & _).
    unfold adapted. simpl. rewrite ?Hp, ?Hg, <- ?app_assoc.
    repeat split; reflexivity.
  - rewrite (flush_unconfigured env w1 Hc Hw1n). cbn [fst snd].
    unfold caught. simpl.
    repeat split; reflexivity.
Qed.

Lemma fresh_channel_syncs_without_remote_witness :
  (status (self (snd (queue no_bot_env (event "A" "m5" 950) fresh_world))) = SYNCED
   /\ requested (ctx (snd (queue no_bot_env (event "A" "m5" 950) fresh_world))) = []
   /\ map (map Message.messageId)
        (upserts (ctx (snd (queue no_bot_env (event "A" "m5" 950) fresh_world))))
      = [["m5"%string]])
  /\ status (self (snd (queue built_env (event "A" "m5" 950) fresh_world))) = FAILED
  /\ warned (ctx (snd (queue built_env (event "A" "m5" 950) fresh_world))) = [TypeError]
  /\ upserts (ctx (snd (queue built_env (event "A" "m5" 950) fresh_world))) = [].
Proof.
  destruct (fresh_channel_syncs_without_remote no_bot_env (event "A" "m5" 950) fresh_world)
    as (_ & _ & _ & Hreq & _ & Hst & _ & Hup & _); try reflexivity.
  destruct (fresh_channel_syncs_without_remote built_env (event "A" "m5" 950) fresh_world)
    as (_ & _ & _ & _ & _ & Hfail & Hwarn & Hnone & _); try reflexivity.
  split; [|split; [exact Hfail|split; [exact Hwarn|exact Hnone]]].
  split; [exact Hst|]. split; [exact Hreq|]. rewrite Hup. reflexivity.
Defined.

(** ** The first session of a channel that has rows in the store *)

Lemma syncHistory_without_bot env rear next w :
  bots env (bot_key (data (self w))) = false ->
  syncHistory env rear next w = (Rejected TypeError, w).
Proof.
  intros Hb. unfold syncHistory, bind. rewrite Hb. reflexivity.
Qed.

Lemma backfilled_buffer rear next before final rest w :
  _buffer (self w) <> [] ->
  _buffer (self (backfilled rear next before final rest w)) <> [].
Proof.
  intros Hbuf. simpl. intros Hnil.
  apply List.app_eq_nil in Hnil. destruct Hnil as [_ Hnil].
  apply List.app_eq_nil in Hnil. destruct Hnil as [_ Hnil]. contradiction.
Qed.

Lemma syncHistory_fetches env w rear next before final rest :
  bots env (bot_key (data (self w))) = true ->
  remote (ctx w) = map Resolved (before ++ [final]) ++ rest ->
  Forall (fun page => page <> [] /\ has_rear rear page = false) before ->
  has_rear rear final = true ->
  syncHistory env rear next w = flush env (backfilled rear next before final rest w).
Proof.
  intros Hbot Hr Hall Hfin.
  assert (Hlen : (length before < S (length (remote (ctx w))))%nat).
  { rewrite Hr, length_app, length_map, length_app. lia. }
  pose proof (syncHistory_loop_pages (channelId (data (self w))) rear before
                (S (length (remote (ctx w)))) next final rest w Hlen Hr Hall Hfin) as Hloop.
  unfold syncHistory, bind. rewrite Hbot, Hloop. reflexivity.
Qed.

Lemma syncHistory_pages env cfg w rear next before final rest :
  config env = Some cfg ->
  bots env (bot_key (data (self w))) = true ->
  remote (ctx w) = map Resolved (before ++ [final]) ++ rest ->
  Forall (fun page => page <> [] /\ has_rear rear page = false) before ->
  has_rear rear final = true ->
  faults (ctx w) = [] -> arrivals (ctx w) = [] -> _buffer (self w) <> [] ->
  syncHistory env rear next w
  = (Resolved tt, after_turn env cfg (backfilled rear next before final rest w)).
Proof.
  intros Hc Hbot Hr Hall Hfin Hf Ha Hbuf.
  rewrite (syncHistory_fetches env w rear next before final rest Hbot Hr Hall Hfin).
  apply flush_once; [exact Hc|apply backfilled_buffer, Hbuf|exact Hf|exact Ha].
Qed.

(** Without a [config] the flush that ends the backfill throws. *)
Lemma syncHistory_unconfigured env w rear next before final rest :
  config env = None ->
  bots env (bot_key (data (self w))) = true ->
  remote (ctx w) = map Resolved (before ++ [final]) ++ rest ->
  Forall (fun page => page <> [] /\ has_rear rear page = false) before ->
  has_rear rear final = true ->
  _buffer (self w) <> [] ->
  syncHistory env rear next w
  = (Rejected TypeError,
     on_self (set_buffer []) (backfilled rear next before final rest w)).
Proof.
  intros Hc Hbot Hr Hall Hfin Hbuf.
  rewrite (syncHistory_fetches env w rear next before final rest Hbot Hr Hall Hfin).
  apply flush_unconfigured; [exact Hc|apply backfilled_buffer, Hbuf].
Qed.

(** X7. The first session of a channel that has rows in the store while no
    bot is registered under [platform:assignee]: the backfill throws a
    TypeError at its first request, the channel becomes FAILED, and the
    session stays in the buffer, unwritten. (Without rows in the store the
    bot is not looked up at all: it is only needed for the backfill.) *)
Theorem missing_bot_fails_the_backfill (env : Env) (s : Session.t) (w : World)
    (newest : Message.t) :
  fst (accept s (self w)) = false ->
  status (self w) = SYNCING ->
  _initTask (self w) = None ->
  stopped (ctx w) = false ->
  faults (ctx w) = [] ->
  head (select_rows (data (self w)) true 1 (database (ctx w))) = Some newest ->
  bots env (bot_key (data (self (enqueued s w)))) = false ->
  fst (queue env s w) = Resolved tt
  /\ status (self (snd (queue env s w))) = FAILED
  /\ _initTask (self (snd (queue env s w))) = Some (Rejected TypeError)
  /\ warned (ctx (snd (queue env s w))) = warned (ctx w) ++ [TypeError]
  /\ _buffer (self (snd (queue env s w))) = _buffer (self w) ++ [s]
  /\ upserts (ctx (snd (queue env s w))) = upserts (ctx w)
  /\ emitted (ctx (snd (queue env s w))) = emitted (ctx w)
  /\ requested (ctx (snd (queue env s w))) = requested (ctx w).
Proof.
  intros Hacc Hs Hi Hstop Hf Hnew Hbot.
  destruct (enqueued_facts s w) as (Hev & Est & Eit & Eqt & Ebuf & Ectx).
  assert (Hrun : queue env s w
                 = (Resolved tt,
                    caught TypeError
                      (on_self (set_initTask (Some (Rejected TypeError))) (enqueued s w)))).
  { rewrite (queue_starts env s w Hacc Hs Hi Hstop).
    rewrite _init_answered by (rewrite Ectx; exact Hf).
    rewrite Ectx. change (database (set_awaiting 0 (ctx w))) with (database (ctx w)).
    rewrite (select_rows_evolves _ _ true 1 _ Hev), Hnew.
    rewrite (syncHistory_without_bot env _ _ _ Hbot). reflexivity. }
  rewrite Hrun. simpl.
  destruct (accept_control s (self w)) as (_ & _ & _ & Hb).
  rewrite Hb. repeat split; reflexivity.
Qed.

Lemma missing_bot_fails_the_backfill_witness :
  status (self (snd (queue no_bot_env (event "A" "m7" 970) exhausted_world))) = FAILED
  /\ warned (ctx (snd (queue no_bot_env (event "A" "m7" 970) exhausted_world)))
     = [TypeError]
  /\ map Session.messageId
       (_buffer (self (snd (queue no_bot_env (event "A" "m7" 970) exhausted_world))))
     = ["m7"%string].
Proof.
  destruct (missing_bot_fails_the_backfill no_bot_env (event "A" "m7" 970)
              exhausted_world (sample_adapt (event "A" "m3" 930) "p" "g"))
    as (_ & Hst & _ & Hw & Hb & _); try reflexivity.
  split; [exact Hst|]. split; [exact Hw|]. rewrite Hb. reflexivity.
Defined.

Lemma after_turn_upserts env cfg w :
  upserts (ctx (after_turn env cfg w))
  = upserts (ctx w) ++ [List.filter (kept env cfg) (adapted env (self w) (_buffer (self w)))].
Proof. reflexivity. Qed.

Lemma after_turn_emitted env cfg w :
  emitted (ctx (after_turn env cfg w))
  = emitted (ctx w)
    ++ [chat_message (adapted env (self w) (_buffer (self w)))
          (data (self (after_turn env cfg w)))].
Proof. reflexivity. Qed.

Lemma after_turn_self env cfg w :
  arrivals (ctx w) = [] -> self (after_turn env cfg w) = set_buffer [] (self w).
Proof. intros Ha. unfold after_turn, after_adapt. simpl. rewrite Ha. reflexivity. Qed.

Lemma head_firstn_1 {A} (l : list A) : head (firstn 1 l) = head l.
Proof. destruct l; reflexivity. Qed.

(** X8. The first session of a channel that has rows in the store, when the
    remote answers with pages that lead back to the newest stored message:
    one call of [queue] fetches those pages (the first with the id of the
    session as cursor) and the flush that ends the backfill takes the whole
    buffer. Where the service has a [config], the backfilled messages and
    the buffered sessions are written in one batch, ['chat/message'] and then
    ['chat/channel'] are emitted, [initial] is set to the message id of the
    stored row with the least [id], and the channel is SYNCED. Where it has
    none, as the service [index.ts] constructs, the retention test throws:
    the initialisation rejects, nothing is written or emitted, [initial]
    stays as it was, the TypeError is logged and the channel is FAILED. *)
Theorem first_session_backfills (env : Env) (s : Session.t) (w : World)
    (newest : Message.t) (before : list (list Session.t)) (final : list Session.t)
    (rest : list (Outcome (list Session.t))) :
  fst (accept s (self w)) = false ->
  status (self w) = SYNCING ->
  _initTask (self w) = None ->
  _queueTask (self w) = None ->
  stopped (ctx w) = false ->
  faults (ctx w) = [] ->
  arrivals (ctx w) = [] ->
  head (select_rows (data (self w)) true 1 (database (ctx w))) = Some newest ->
  bots env (bot_key (data (self (enqueued s w)))) = true ->
  remote (ctx w) = map Resolved (before ++ [final]) ++ rest ->
  Forall (fun page => page <> [] /\ has_rear (Message.messageId newest) page = false)
    before ->
  has_rear (Message.messageId newest) final = true ->
  fst (queue env s w) = Resolved tt
  /\ _buffer (self (snd (queue env s w))) = []
  /\ requested (ctx (snd (queue env s w)))
     = requested (ctx w)
       ++ cursors (channelId (data (self w))) (Some (Session.messageId s))
            (before ++ [final])
  /\ remote (ctx (snd (queue env s w))) = rest
  /\ match config env with
     | Some cfg =>
         status (self (snd (queue env s w))) = SYNCED
         /\ initial (data (self (snd (queue env s w))))
            = option_map Message.messageId (head (channel_rows w))
         /\ warned (ctx (snd (queue env s w))) = warned (ctx w)
         /\ upserts (ctx (snd (queue env s w)))
            = upserts (ctx w)
              ++ [List.filter (kept env cfg)
                    (adapted env (self w)
                       (after_rear (Message.messageId newest) final ++ concat (rev before)
                        ++ _buffer (self w) ++ [s]))]
         /\ emitted (ctx (snd (queue env s w)))
            = emitted (ctx w)
              ++ [chat_message
                    (adapted env (self w)
                       (after_rear (Message.messageId newest) final ++ concat (rev before)
                        ++ _buffer (self w) ++ [s]))
                    (data (self (enqueued s w)));
                  chat_channel (data (self (snd (queue env s w))))]
     | None =>
         status (self (snd (queue env s w))) = FAILED
         /\ _initTask (self (snd (queue env s w))) = Some (Rejected TypeError)
         /\ initial (data (self (snd (queue env s w)))) = initial (data (self w))
         /\ warned (ctx (snd (queue env s w))) = warned (ctx w) ++ [TypeError]
         /\ upserts (ctx (snd (queue env s w))) = upserts (ctx w)
         /\ emitted (ctx (snd (queue env s w))) = emitted (ctx w)
     end.
Proof.
  intros Hacc Hs Hi Hq Hstop Hf Ha Hnew Hbot Hr Hall Hfin.
  destruct (enqueued_facts s w) as (Hev & Est & Eit & Eqt & Ebuf & Ectx).
  set (i := option_map Message.messageId (head (channel_rows w))).
  set (rear := Message.messageId newest) in *.
  set (B := backfilled rear (Some (Session.messageId s)) before final rest
              (enqueued s w)).
  destruct (accept_control s (self w)) as (_ & _ & Hqa & Hba).
  destruct (accept_evolves s (self w)) as (_ & _ & Hca & _).
  assert (Hne : _buffer (self (enqueued s w)) <> []).
  { rewrite Ebuf. destruct (_buffer (self w)); discriminate. }
  assert (Hinit : _init env (Some s) (enqueued s w)
                  = match syncHistory env rear (Some (Session.messageId s)) (enqueued s w)
                    with
                    | (Resolved _, w1) => (Resolved tt, ready i w1)
                    | (Rejected e, w1) => (Rejected e, w1)
                    | (Pending, w1) => (Pending, w1)
                    end).
  { rewrite _init_answered by (rewrite Ectx; exact Hf).
    rewrite Ectx. change (database (set_awaiting 0 (ctx w))) with (database (ctx w)).
    rewrite !(select_rows_evolves _ _ _ 1 _ Hev), Hnew.
    cbn [option_map]. fold rear.
    unfold select_rows. rewrite head_firstn_1. fold (channel_rows w). fold i.
    reflexivity. }
  assert (HreqB : requested (ctx B)
                  = requested (ctx w)
                    ++ cursors (channelId (data (self w))) (Some (Session.messageId s))
                         (before ++ [final])).
  { unfold B, backfilled. simpl. rewrite Hca. reflexivity. }
  assert (HbB : _buffer (self B)
                = after_rear rear final ++ concat (rev before) ++ _buffer (self w) ++ [s])
    by (unfold B, backfilled; simpl; rewrite Hba; reflexivity).
  assert (HaB : arrivals (ctx B) = [])
    by (unfold B, backfilled; simpl; exact Ha).
  assert (Had : forall b, adapted env (self B) b = adapted env (self w) b).
  { intros b. apply adapted_evolves. eapply evolves_trans; [exact Hev|].
    unfold evolves. simpl. auto. }
  rewrite (queue_starts env s w Hacc Hs Hi Hstop), Hinit.
  destruct (config env) as [cfg|] eqn:Hc.
  - set (w1 := after_turn env cfg B).
    rewrite (syncHistory_pages env cfg (enqueued s w) rear (Some (Session.messageId s))
               before final rest Hc Hbot);
      [|rewrite Ectx; exact Hr|exact Hall|exact Hfin|rewrite Ectx; exact Hf
       |rewrite Ectx; exact Ha|exact Hne].
    fold B. fold w1.
    change (status (self (ready i w1))) with SYNCED.
    change (SyncStatus_eqb SYNCED SYNCED) with true. cbv iota.
    unfold then_flush.
    assert (Hqt : _queueTask (self (on_self (set_initTask (Some (Resolved tt)))
                                      (ready i w1))) = None).
    { simpl. rewrite Ha. simpl. rewrite Hqa. exact Hq. }
    rewrite Hqt.
    rewrite flush_nothing; [|simpl; rewrite Ha; reflexivity].
    cbn [fst snd].
    split; [reflexivity|].
    split.
    { transitivity (_buffer (self w1)); [reflexivity|].
      unfold w1. rewrite (after_turn_self env cfg B HaB). reflexivity. }
    split; [exact HreqB|]. split; [reflexivity|].
    split; [reflexivity|]. split; [reflexivity|]. split; [reflexivity|].
    split.
    { transitivity (upserts (ctx w1)); [reflexivity|].
      unfold w1. rewrite after_turn_upserts, Had, HbB. reflexivity. }
    transitivity (emitted (ctx w1)
                  ++ [chat_channel
                        (data (self (on_self (set_initTask (Some (Resolved tt)))
                                       (ready i w1))))]); [reflexivity|].
    unfold w1 at 1. rewrite after_turn_emitted, Had, HbB.
    rewrite (after_turn_self env cfg B HaB).
    rewrite <- app_assoc. reflexivity.
  - rewrite (syncHistory_unconfigured env (enqueued s w) rear (Some (Session.messageId s))
               before final rest Hc Hbot);
      [|rewrite Ectx; exact Hr|exact Hall|exact Hfin|exact Hne].
    fold B. cbn [fst snd].
    split; [reflexivity|]. split; [reflexivity|].
    split; [exact HreqB|]. split; [reflexivity|].
    split; [reflexivity|]. split; [reflexivity|].
    split.
    { unfold caught. simpl. apply accept_initial. }
    unfold caught. simpl. repeat split; reflexivity.
Qed.

Lemma first_session_backfills_witness :
  (status (self (snd (queue sample_env (event "A" "m7" 970) scenario_B_fresh))) = SYNCED
   /\ map (map Message.messageId)
        (upserts (ctx (snd (queue sample_env (event "A" "m7" 970) scenario_B_fresh))))
      = [["m4"; "m5"; "m6"; "m7"]%string]
   /\ initial (data (self (snd (queue sample_env (event "A" "m7" 970) scenario_B_fresh))))
      = Some "m1"%string)
  /\ status (self (snd (queue built_env (event "A" "m7" 970) scenario_B_fresh))) = FAILED
  /\ upserts (ctx (snd (queue built_env (event "A" "m7" 970) scenario_B_fresh))) = []
  /\ _buffer (self (snd (queue built_env (event "A" "m7" 970) scenario_B_fresh))) = [].
Proof.
  destruct (first_session_backfills sample_env (event "A" "m7" 970) scenario_B_fresh
              (sample_adapt (event "A" "m3" 930) "p" "g")
              [[event "A" "m4" 940; event "A" "m5" 950; event "A" "m6" 960]]
              [event "A" "m2" 920; event "A" "m3" 930] [])
    as (_ & _ & _ & _ & Hst & Hi & _ & Hup & _); try reflexivity.
  { constructor; [split; [discriminate|reflexivity]|constructor]. }
  destruct (first_session_backfills built_env (event "A" "m7" 970) scenario_B_fresh
              (sample_adapt (event "A" "m3" 930) "p" "g")
              [[event "A" "m4" 940; event "A" "m5" 950; event "A" "m6" 960]]
              [event "A" "m2" 920; event "A" "m3" 930] [])
    as (_ & Hbuf & _ & _ & Hfail & _ & _ & _ & Hnone & _); try reflexivity.
  { constructor; [split; [discriminate|reflexivity]|constructor]. }
  split; [|split; [exact Hfail|split; [exact Hnone|exact Hbuf]]].
  split; [exact Hst|]. split; [rewrite Hup; reflexivity|rewrite Hi; reflexivity].
Defined.

(** ** A synced channel *)

Lemma queue_synced env s w :
  fst (accept s (self w)) = false ->
  status (self w) = SYNCED -> _queueTask (self w) = None ->
  stopped (ctx w) = false ->
  queue env s w
  = match flush env (enqueued s w) with
    | (Resolved _, w1) => (Resolved tt, w1)
    | (Rejected e, w1) => (Resolved tt, caught e (on_self (set_queueTask (Some e)) w1))
    | (Pending, w1) => (Pending, w1)
    end.
Proof.
  intros Hacc Hs Hq Hstop. unfold queue, enqueued.
  destruct (accept_control s (self w)) as (Hst & _ & Hqt & _).
  destruct (accept s (self w)) as [rejected c]; simpl in *. subst rejected.
  rewrite Hs in Hst. rewrite Hq in Hqt.
  unfold bind, ensure, queue_callback, bind, then_flush. simpl.
  rewrite Hst, Hstop. simpl. rewrite Hst. simpl. rewrite Hqt.
  destruct (flush env _) as [[[]|e|] w1]; reflexivity.
Qed.

Lemma interleave_spec w :
  snd (interleave w)
  = mkWorld
      (arrive_all (hd [] (arrivals (ctx w))) (self w))
      (set_awaiting
         (awaiting (ctx w)
          + (length (_buffer (arrive_all (hd [] (arrivals (ctx w))) (self w)))
             - length (_buffer (self w))))
         (set_arrivals (tl (arrivals (ctx w))) (ctx w))).
Proof.
  unfold interleave.
  destruct w as [c x]; destruct x as [db u em wa st re rq fa ar aw]; simpl.
  destruct ar as [|a ar]; simpl; [|reflexivity].
  rewrite Nat.sub_diag, Nat.add_0_r. reflexivity.
Qed.

Lemma flush_faulted env cfg w e rest :
  config env = Some cfg ->
  _buffer (self w) <> [] -> faults (ctx w) = Some e :: rest ->
  flush env w
  = (Rejected e, snd (interleave (on_ctx (set_faults rest) (on_self (set_buffer []) w)))).
Proof.
  intros Hc Hb Hf. unfold flush. simpl.
  destruct (_buffer (self w)) as [|s batch] eqn:Hbuf; [contradiction|].
  rewrite (adapt_faulted env cfg (s :: batch) (on_self (set_buffer []) w) e rest Hc Hf).
  reflexivity.
Qed.

(** X9. A flush on a synced channel that fails loses its batch: [flush] had
    taken the whole buffer before the write, the store is unchanged, nothing
    is emitted, the channel is FAILED and the chain of flushes is rejected.
    Where the service has a [config] and the store rejects the write, the
    sessions that concurrent calls of [queue] brought in while the write was
    awaited are in the buffer, where they stay, and the error of the store
    is logged once by this call and once more by each of those calls. Where
    the service has no [config], as the one [index.ts] constructs, the
    retention test throws before the write: the buffer is empty, the store
    is not even asked, and the TypeError is logged. *)
Theorem rejected_write_loses_the_batch (env : Env) (s : Session.t) (w : World)
    (e : Error) (rest : list (option Error)) :
  fst (accept s (self w)) = false ->
  status (self w) = SYNCED ->
  _queueTask (self w) = None ->
  stopped (ctx w) = false ->
  faults (ctx w) = Some e :: rest ->
  fst (queue env s w) = Resolved tt
  /\ status (self (snd (queue env s w))) = FAILED
  /\ database (ctx (snd (queue env s w))) = database (ctx w)
  /\ upserts (ctx (snd (queue env s w))) = upserts (ctx w)
  /\ emitted (ctx (snd (queue env s w))) = emitted (ctx w)
  /\ match config env with
     | Some cfg =>
         _queueTask (self (snd (queue env s w))) = Some e
         /\ _buffer (self (snd (queue env s w)))
            = let_in (hd [] (arrivals (ctx w))) (self (enqueued s w))
         /\ warned (ctx (snd (queue env s w)))
            = warned (ctx w)
              ++ repeat e
                   (S (length (let_in (hd [] (arrivals (ctx w))) (self (enqueued s w)))))
         /\ faults (ctx (snd (queue env s w))) = rest
         /\ arrivals (ctx (snd (queue env s w))) = tl (arrivals (ctx w))
     | None =>
         _queueTask (self (snd (queue env s w))) = Some TypeError
         /\ _buffer (self (snd (queue env s w))) = []
         /\ warned (ctx (snd (queue env s w))) = warned (ctx w) ++ [TypeError]
         /\ faults (ctx (snd (queue env s w))) = Some e :: rest
         /\ arrivals (ctx (snd (queue env s w))) = arrivals (ctx w)
     end.
Proof.
  intros Hacc Hs Hq Hstop Hf.
  destruct (enqueued_facts s w) as (_ & _ & _ & _ & Ebuf & Ectx).
  assert (Hne : _buffer (self (enqueued s w)) <> []).
  { rewrite Ebuf. destruct (_buffer (self w)); discriminate. }
  rewrite (queue_synced env s w Hacc Hs Hq Hstop).
  destruct (config env) as [cfg|] eqn:Hc.
  - rewrite (flush_faulted env cfg (enqueued s w) e rest Hc Hne)
      by (rewrite Ectx; exact Hf).
    rewrite interleave_spec. unfold caught, let_in. simpl.
    rewrite Nat.sub_0_r. repeat split; reflexivity.
  - rewrite (flush_unconfigured env (enqueued s w) Hc Hne).
    unfold caught. simpl. rewrite Hf. repeat split; reflexivity.
Qed.

Lemma rejected_write_loses_the_batch_witness :
  status (self (snd (queue sample_env (event "A" "m5" 950)
                       (on_ctx (set_arrivals [[event "A" "m6" 960]]) faulty_world))))
  = FAILED
  /\ map Session.messageId
       (_buffer (self (snd (queue sample_env (event "A" "m5" 950)
                              (on_ctx (set_arrivals [[event "A" "m6" 960]])
                                 faulty_world)))))
     = ["m6"%string]
  /\ warned (ctx (snd (queue sample_env (event "A" "m5" 950)
                        (on_ctx (set_arrivals [[event "A" "m6" 960]]) faulty_world))))
     = [StoreError 3; StoreError 3]
  /\ tbl_chat_message
       (database (ctx (snd (queue sample_env (event "A" "m5" 950)
                              (on_ctx (set_arrivals [[event "A" "m6" 960]])
                                 faulty_world))))) = [].
Proof.
  destruct (rejected_write_loses_the_batch sample_env (event "A" "m5" 950)
              (on_ctx (set_arrivals [[event "A" "m6" 960]]) faulty_world)
              (StoreError 3) [])
    as (_ & Hst & Hdb & _ & _ & _ & Hb & Hw & _); try reflexivity.
  split; [exact Hst|]. split; [rewrite Hb; reflexivity|].
  split; [rewrite Hw; reflexivity|]. rewrite Hdb. reflexivity.
Defined.

(** One call of [queue] never takes the status back. *)
Lemma queue_rank env s w :
  (rank (status (self w)) <= rank (status (self (snd (queue env s w)))))%nat.
Proof.
  destruct (status (self w)) eqn:Hs.
  - simpl. lia.
  - unfold queue.
    destruct (accept_control s (self w)) as (Hst & _).
    destruct (accept s (self w)) as [[|] c]; simpl in *; [rewrite Hst, Hs; simpl; lia|].
    rewrite Hs in Hst.
    unfold bind, ensure, queue_callback, bind. simpl. rewrite Hst. simpl.
    destruct (stopped (ctx w)); simpl; [rewrite Hst; simpl; lia|].
    rewrite Hst. simpl. unfold then_flush. simpl.
    destruct (_queueTask c); simpl; [lia|].
    pose proof (flush_quiet env (on_ctx (set_awaiting 0) (mkWorld (set_buffer (_buffer c ++ [s]) c) (ctx w))))
      as (Q1 & _).
    destruct (flush env _) as [[[]|e|] w1]; simpl in *; rewrite ?Q1, ?Hst; simpl; lia.
  - destruct (queue_failed env s w Hs) as (Hf & _). rewrite Hf. simpl. lia.
Qed.

(** X10. The status of a channel only moves forward, from SYNCING to SYNCED
    to FAILED: whatever sessions are queued, the status afterwards is not
    before the status at the start. In particular a synced channel is never
    initialised again. *)
Theorem status_never_goes_back (env : Env) (sessions : list Session.t) (w : World) :
  (rank (status (self w)) <= rank (status (self (queue_all env sessions w))))%nat.
Proof.
  revert w. induction sessions as [|s rest IH]; intros w; simpl; [lia|].
  pose proof (queue_rank env s w). pose proof (IH (snd (queue env s w))). lia.
Qed.

(** ** The order of the writes *)

Lemma arrive_prefix s c p :
  arrive s (set_buffer (p ++ _buffer c) c)
  = set_buffer (p ++ _buffer (arrive s c)) (arrive s c).
Proof.
  unfold arrive, accept. destruct c as [d st b it qt]. simpl.
  destruct (truthy (assignee d)); simpl;
    [destruct (differs (assignee d) (Session.selfId s)); simpl|];
    try destruct (truthy (Session.channelName s)); simpl;
    rewrite <- ?app_assoc; reflexivity.
Qed.

Lemma arrive_all_prefix sessions : forall c p,
  arrive_all sessions (set_buffer (p ++ _buffer c) c)
  = set_buffer (p ++ _buffer (arrive_all sessions c)) (arrive_all sessions c).
Proof.
  induction sessions as [|s rest IH]; intros c p; [reflexivity|].
  change (arrive_all (s :: rest) ?x) with (arrive_all rest (arrive s x)).
  rewrite arrive_prefix.
  replace (set_buffer (p ++ _buffer (arrive s c)) (arrive s c))
    with (set_buffer (p ++ _buffer (arrive s c)) (arrive s c)) by reflexivity.
  apply (IH (arrive s c) p).
Qed.

Lemma arrive_all_buffer sessions c :
  _buffer (arrive_all sessions c) = _buffer c ++ let_in sessions c.
Proof.
  unfold let_in.
  pose proof (arrive_all_prefix sessions (set_buffer [] c) (_buffer c)) as H.
  simpl in H. rewrite app_nil_r in H.
  replace (set_buffer (_buffer c) (set_buffer [] c)) with c in H
    by (destruct c; reflexivity).
  rewrite H. reflexivity.
Qed.

Lemma arrive_all_app l1 l2 c :
  arrive_all (l1 ++ l2) c = arrive_all l2 (arrive_all l1 c).
Proof. unfold arrive_all. apply fold_left_app. Qed.

Lemma let_in_app l1 l2 c :
  let_in (l1 ++ l2) c
  = let_in l1 c ++ let_in l2 (arrive_all l1 (set_buffer [] c)).
Proof.
  unfold let_in at 1. rewrite arrive_all_app, arrive_all_buffer. reflexivity.
Qed.

Lemma adapted_app env c l1 l2 :
  adapted env c (l1 ++ l2) = adapted env c l1 ++ adapted env c l2.
Proof. unfold adapted. apply map_app. Qed.

Lemma flush_run env cfg : forall arr w,
  config env = Some cfg ->
  arrivals (ctx w) = arr -> faults (ctx w) = [] ->
  exists k written notified,
    fst (flush env w) = Resolved tt
    /\ arrivals (ctx (snd (flush env w))) = skipn k arr
    /\ upserts (ctx (snd (flush env w))) = upserts (ctx w) ++ written
    /\ emitted (ctx (snd (flush env w))) = emitted (ctx w) ++ notified
    /\ concat written
       = List.filter (kept env cfg)
           (adapted env (self w)
              (_buffer (self w) ++ let_in (concat (firstn k arr)) (self w)))
    /\ notified_records notified
       = adapted env (self w)
           (_buffer (self w) ++ let_in (concat (firstn k arr)) (self w))
    /\ (_buffer (self w) <> [] ->
        exists later,
          written
          = List.filter (kept env cfg) (adapted env (self w) (_buffer (self w)))
            :: later).
Proof.
  intros arr w Hc. revert arr w.
  assert (Hcase : forall w : World, _buffer (self w) = [] \/ _buffer (self w) <> [])
    by (intros w; destruct (_buffer (self w)); [left; reflexivity|right; discriminate]).
  assert (Hidle : forall (arr : list (list Session.t)) w,
            arrivals (ctx w) = arr -> _buffer (self w) = [] ->
            exists k written notified,
              fst (flush env w) = Resolved tt
              /\ arrivals (ctx (snd (flush env w))) = skipn k arr
              /\ upserts (ctx (snd (flush env w))) = upserts (ctx w) ++ written
              /\ emitted (ctx (snd (flush env w))) = emitted (ctx w) ++ notified
              /\ concat written
                 = List.filter (kept env cfg)
                     (adapted env (self w)
                        (_buffer (self w) ++ let_in (concat (firstn k arr)) (self w)))
              /\ notified_records notified
                 = adapted env (self w)
                     (_buffer (self w) ++ let_in (concat (firstn k arr)) (self w))
              /\ (_buffer (self w) <> [] ->
                  exists later,
                    written
                    = List.filter (kept env cfg)
                        (adapted env (self w) (_buffer (self w)))
                      :: later)).
  { intros arr w Ha Hb. exists 0%nat, [], []. rewrite (flush_nothing env w Hb). simpl.
    rewrite !app_nil_r, Hb. repeat split; try reflexivity; [exact Ha|].
    intros Hne. contradiction. }
  induction arr as [|a rest IH]; intros w Ha Hf.
  - destruct (Hcase w) as [Hb|Hb]; [apply (Hidle [] w Ha Hb)|].
    exists 0%nat. eexists. eexists.
    rewrite (flush_once env cfg w Hc Hb Hf Ha).
    cbn [fst snd]. rewrite after_turn_upserts, after_turn_emitted.
    split; [reflexivity|]. split; [rewrite after_turn_arrivals, Ha; reflexivity|].
    split; [reflexivity|]. split; [reflexivity|].
    simpl. rewrite !app_nil_r. unfold let_in. simpl. rewrite ?app_nil_r.
    split; [reflexivity|]. split; [reflexivity|].
    intros _. exists []. reflexivity.
  - destruct (Hcase w) as [Hb|Hb]; [apply (Hidle (a :: rest) w Ha Hb)|].
    rewrite (flush_turn env cfg w); [|exact Hc|exact Hb|rewrite Hf; reflexivity].
    destruct (IH (after_turn env cfg w))
      as (k & written & notified & H1 & H2 & H3 & H4 & H5 & H6 & _).
    { rewrite after_turn_arrivals, Ha. reflexivity. }
    { unfold after_turn, after_adapt. simpl. rewrite Hf. reflexivity. }
    assert (Hself : self (after_turn env cfg w) = arrive_all a (set_buffer [] (self w))).
    { unfold after_turn, after_adapt. simpl. rewrite Ha. reflexivity. }
    assert (Had : forall l, adapted env (self (after_turn env cfg w)) l
                            = adapted env (self w) l).
    { intros l. apply adapted_evolves. rewrite Hself.
      apply (arrive_all_evolves a (set_buffer [] (self w))). }
    assert (Hall : _buffer (self w) ++ let_in (concat (firstn (S k) (a :: rest))) (self w)
                   = _buffer (self w)
                     ++ _buffer (self (after_turn env cfg w))
                     ++ let_in (concat (firstn k rest)) (self (after_turn env cfg w))).
    { change (concat (firstn (S k) (a :: rest))) with (a ++ concat (firstn k rest)).
      rewrite let_in_app, Hself. reflexivity. }
    exists (S k). eexists. eexists.
    split; [exact H1|]. split; [exact H2|].
    rewrite H3, H4, after_turn_upserts, after_turn_emitted, <- !app_assoc.
    split; [reflexivity|]. split; [reflexivity|].
    rewrite Hall, !adapted_app, !List.filter_app.
    simpl. rewrite H5, H6, !Had, !adapted_app, !List.filter_app.
    split; [reflexivity|]. split; [reflexivity|].
    intros _. exists written. reflexivity.
Qed.

(** X11. Where the service has a [config], a call of [flush] whose writes
    the store accepts loses nothing, repeats nothing and keeps the order: the
    batches it writes, put end to end, are the retained records of the buffer
    followed by the sessions that [accept] let in while it ran, in the order
    they came; the ['chat/message'] notifications carry the same sessions,
    unfiltered. Where the service has no [config], as the one [index.ts]
    constructs, a call on a non-empty buffer takes the buffer and rejects
    with a TypeError: nothing is written, nothing is notified, and no
    arrival is awaited. *)
Theorem flush_keeps_arrival_order (env : Env) (w : World) :
  faults (ctx w) = [] ->
  match config env with
  | Some cfg =>
      exists k written notified,
        fst (flush env w) = Resolved tt
        /\ arrivals (ctx (snd (flush env w))) = skipn k (arrivals (ctx w))
        /\ upserts (ctx (snd (flush env w))) = upserts (ctx w) ++ written
        /\ emitted (ctx (snd (flush env w))) = emitted (ctx w) ++ notified
        /\ concat written
           = List.filter (kept env cfg)
               (adapted env (self w)
                  (_buffer (self w)
                   ++ let_in (concat (firstn k (arrivals (ctx w)))) (self w)))
        /\ notified_records notified
           = adapted env (self w)
               (_buffer (self w)
                ++ let_in (concat (firstn k (arrivals (ctx w)))) (self w))
  | None =>
      _buffer (self w) <> [] ->
      fst (flush env w) = Rejected TypeError
      /\ _buffer (self (snd (flush env w))) = []
      /\ arrivals (ctx (snd (flush env w))) = arrivals (ctx w)
      /\ upserts (ctx (snd (flush env w))) = upserts (ctx w)
      /\ emitted (ctx (snd (flush env w))) = emitted (ctx w)
  end.
Proof.
  intros Hf. destruct (config env) as [cfg|] eqn:Hc.
  - destruct (flush_run env cfg (arrivals (ctx w)) w Hc eq_refl Hf)
      as (k & written & notified & H1 & H2 & H3 & H4 & H5 & H6 & _).
    exists k, written, notified. auto 10.
  - intros Hb. rewrite (flush_unconfigured env w Hc Hb). repeat split; reflexivity.
Qed.

Lemma flush_keeps_arrival_order_witness :
  (exists written notified,
     upserts (ctx (snd (flush sample_env busy_world))) = written
     /\ emitted (ctx (snd (flush sample_env busy_world))) = notified
     /\ map Message.messageId (concat written) = ["m2"; "m3"]%string
     /\ map Message.messageId (notified_records notified) = ["m1"; "m2"; "m3"]%string)
  /\ fst (flush built_env busy_world) = Rejected TypeError
  /\ upserts (ctx (snd (flush built_env busy_world))) = [].
Proof.
  destruct (flush_keeps_arrival_order sample_env busy_world)
    as (k & written & notified & _ & _ & Hu & He & _); [reflexivity|].
  destruct (flush_keeps_arrival_order built_env busy_world eq_refl)
    as (Hrej & _ & _ & Hnone & _); [discriminate|].
  split; [|split; [exact Hrej|exact Hnone]].
  exists written, notified. simpl in Hu, He.
  split; [exact Hu|]. split; [exact He|].
  rewrite <- Hu, <- He. split; reflexivity.
Defined.

(** ** Backfill: the order of the buffer and of what is persisted *)

(** C1 (amended). When the remote answers with the pages [before] that do
    not hold [rear] and then with the page [final] that does, the loop of
    [syncHistory] ends, having asked for each page with the id of the first
    message of the page before as cursor, and the buffer is: the messages of
    [final] that stand after [rear], then the pages of [before], the last
    fetched first, each in the order the remote gave it, then the sessions
    that were buffered. Hence the buffer is in strictly increasing time
    order when the pages as given, later pages first, followed by the
    buffered sessions are. Where the service has a [config], the flush that
    follows resolves, its first batch is the retained records of that buffer,
    and all its batches put end to end are the retained records of that
    buffer followed by the sessions let in during the writes: a sequence in
    strictly increasing time order when those sessions are. Where the
    service has no [config], as the one [index.ts] constructs, that flush
    throws and nothing is persisted. *)
Theorem backfill_keeps_page_order (env : Env) (w : World) (rear : string)
    (next : option string) (before : list (list Session.t)) (final : list Session.t)
    (rest : list (Outcome (list Session.t))) :
  bots env (bot_key (data (self w))) = true ->
  remote (ctx w) = map Resolved (before ++ [final]) ++ rest ->
  Forall (fun page => page <> [] /\ has_rear rear page = false) before ->
  has_rear rear final = true ->
  faults (ctx w) = [] ->
  _buffer (self w) <> [] ->
  (forall s p g, Message.timestamp (Message_adapt env s p g) = Session.timestamp s) ->
  fst (backfill env rear next w) = Resolved tt
  /\ _buffer (self (snd (backfill env rear next w)))
     = after_rear rear final ++ concat (rev before) ++ _buffer (self w)
  /\ Forall (fun m => Session.messageId m <> rear) (after_rear rear final)
  /\ (exists older, final = older ++ after_rear rear final)
  /\ requested (ctx (snd (backfill env rear next w)))
     = requested (ctx w) ++ cursors (channelId (data (self w))) next (before ++ [final])
  /\ (increasing
        (map Session.timestamp (final ++ concat (rev before) ++ _buffer (self w))) = true ->
      increasing
        (map Session.timestamp
           (after_rear rear final ++ concat (rev before) ++ _buffer (self w))) = true)
  /\ match config env with
     | Some cfg =>
         exists k written later,
           fst (syncHistory env rear next w) = Resolved tt
           /\ upserts (ctx (snd (syncHistory env rear next w))) = upserts (ctx w) ++ written
           /\ written
              = List.filter (kept env cfg)
                  (adapted env (self w)
                     (after_rear rear final ++ concat (rev before) ++ _buffer (self w)))
                :: later
           /\ concat written
              = List.filter (kept env cfg)
                  (adapted env (self w)
                     ((after_rear rear final ++ concat (rev before) ++ _buffer (self w))
                      ++ let_in (concat (firstn k (arrivals (ctx w)))) (self w)))
           /\ (increasing
                 (map Session.timestamp
                    ((final ++ concat (rev before) ++ _buffer (self w))
                     ++ let_in (concat (firstn k (arrivals (ctx w)))) (self w))) = true ->
               increasing (map Message.timestamp (concat written)) = true)
     | None =>
         fst (syncHistory env rear next w) = Rejected TypeError
         /\ upserts (ctx (snd (syncHistory env rear next w))) = upserts (ctx w)
     end.
Proof.
  intros Hbot Hr Hall Hfin Hf Hbuf Htime.
  assert (Hloop := syncHistory_loop_pages (channelId (data (self w))) rear before
                     (S (length (remote (ctx w)))) next final rest w).
  assert (Hlen : (length before < S (length (remote (ctx w))))%nat).
  { rewrite Hr, length_app, length_map, length_app. lia. }
  specialize (Hloop Hlen Hr Hall Hfin).
  assert (Hback : backfill env rear next w
                  = (Resolved tt, backfilled rear next before final rest w)).
  { unfold backfill. rewrite Hbot. exact Hloop. }
  assert (Hsuffix : forall tail,
            increasing (map Session.timestamp (final ++ tail)) = true ->
            increasing (map Session.timestamp (after_rear rear final ++ tail)) = true).
  { intros tail Hinc. destruct (after_rear_suffix rear final) as [older Ho].
    rewrite Ho in Hinc. rewrite <- app_assoc, map_app in Hinc.
    apply increasing_suffix in Hinc. exact Hinc. }
  rewrite Hback. cbn [fst snd].
  split; [reflexivity|]. split; [reflexivity|].
  split; [apply Forall_rev, until_rear_excludes|].
  split; [apply after_rear_suffix|].
  split; [reflexivity|].
  split; [apply Hsuffix|].
  rewrite (syncHistory_fetches env w rear next before final rest Hbot Hr Hall Hfin).
  destruct (config env) as [cfg|] eqn:Hc.
  - destruct (flush_run env cfg (arrivals (ctx w))
                (backfilled rear next before final rest w) Hc eq_refl Hf)
      as (k & written & notified & H1 & _ & H3 & _ & H5 & _ & H7).
    destruct (H7 (backfilled_buffer rear next before final rest w Hbuf)) as [later Hl].
    exists k, written, later.
    split; [exact H1|]. split; [exact H3|]. split; [exact Hl|]. split; [exact H5|].
    intros Hinc. rewrite H5.
    change (adapted env (self (backfilled rear next before final rest w)))
      with (adapted env (self w)).
    rewrite map_filter_adapted, adapted_timestamps by exact Htime.
    apply increasing_StronglySorted, StronglySorted_map_filter.
    apply increasing_StronglySorted.
    change (_buffer (self (backfilled rear next before final rest w)))
      with (after_rear rear final ++ concat (rev before) ++ _buffer (self w)).
    change (let_in (concat (firstn k (arrivals (ctx w))))
              (self (backfilled rear next before final rest w)))
      with (let_in (concat (firstn k (arrivals (ctx w)))) (self w)).
    rewrite <- !app_assoc. apply Hsuffix. rewrite <- !app_assoc in Hinc. exact Hinc.
  - rewrite (flush_unconfigured env _ Hc
               (backfilled_buffer rear next before final rest w Hbuf)).
    split; reflexivity.
Qed.

Lemma backfill_keeps_page_order_witness :
  map Session.messageId
    (_buffer (self (snd (backfill sample_env "m3" (Some "m7"%string) scenario_B_ascending))))
  = ["m4"; "m5"; "m6"; "m7"]%string
  /\ increasing
       (map Session.timestamp
          (_buffer (self (snd (backfill sample_env "m3" (Some "m7"%string)
                                 scenario_B_ascending))))) = true
  /\ map (map Message.messageId)
       (upserts (ctx (snd (syncHistory sample_env "m3" (Some "m7"%string)
                             scenario_B_ascending))))
     = [["m4"; "m5"; "m6"; "m7"]%string]
  /\ fst (syncHistory built_env "m3" (Some "m7"%string) scenario_B_ascending)
     = Rejected TypeError.
Proof.
  destruct (backfill_keeps_page_order sample_env scenario_B_ascending "m3"
              (Some "m7"%string)
              [[event "A" "m4" 940; event "A" "m5" 950; event "A" "m6" 960]]
              [event "A" "m2" 920; event "A" "m3" 930] [])
    as (_ & Hbuf & _ & _ & _ & Hinc & _);
    [reflexivity|reflexivity
    |constructor; [split; [discriminate|reflexivity]|constructor]
    |reflexivity|reflexivity|discriminate|reflexivity|].
  destruct (backfill_keeps_page_order built_env scenario_B_ascending "m3"
              (Some "m7"%string)
              [[event "A" "m4" 940; event "A" "m5" 950; event "A" "m6" 960]]
              [event "A" "m2" 920; event "A" "m3" 930] [])
    as (_ & _ & _ & _ & _ & _ & Hbuilt & _);
    [reflexivity|reflexivity
    |constructor; [split; [discriminate|reflexivity]|constructor]
    |reflexivity|reflexivity|discriminate|reflexivity|].
  rewrite Hbuf. split; [reflexivity|]. split; [apply Hinc; reflexivity|].
  split; [reflexivity|exact Hbuilt].
Defined.

(** C1 as stated fails on Scenario B of the design document, whose pages
    are newest first: the loop puts the messages in front of the buffer one
    by one, so a page ends up in the order the remote gave it, and [m2],
    which stands after [rear] in the reversed page, is taken as well. Neither
    the buffer nor, with a [config] at hand, the batch that is written is in
    time order. *)
Lemma backfill_counterexample :
  fst (backfill sample_env "m3" (Some "m7"%string) scenario_B_buffered) = Resolved tt
  /\ map Session.messageId
       (_buffer (self (snd (backfill sample_env "m3" (Some "m7"%string)
                              scenario_B_buffered))))
     = ["m2"; "m6"; "m5"; "m4"; "m7"]%string
  /\ increasing
       (map Session.timestamp
          (_buffer (self (snd (backfill sample_env "m3" (Some "m7"%string)
                                 scenario_B_buffered))))) = false
  /\ map (map Message.timestamp)
       (upserts (ctx (snd (queue sample_env (event "A" "m7" 970) scenario_B))))
     = [[920; 960; 950; 940; 970]].
Proof. repeat split; vm_compute; reflexivity. Qed.

(** ** History on demand: bounds *)

Lemma adapt_requested env buffer w :
  requested (ctx (snd (adapt env buffer w))) = requested (ctx w)
  /\ remote (ctx (snd (adapt env buffer w))) = remote (ctx w).
Proof.
  unfold adapt. destruct (Array_filter (retained env) _) as [rows|]; [|auto].
  unfold bind, database_upsert, awaited, bind, db_call, interleave, ret.
  destruct w as [c x]; destruct x as [db u em wa st re rq fa ar aw]; simpl.
  destruct fa as [|[e|] fa]; simpl; destruct ar as [|a ar]; simpl; auto.
Qed.

Lemma getHistory_loop_bound bot channelId count fuel : forall next buffer w,
  (length buffer < count)%nat \/ buffer = [] ->
  (length (requested (ctx (snd (getHistory_loop fuel bot channelId count next buffer w))))
   <= length (requested (ctx w)) + Nat.max 1 (count - length buffer))%nat.
Proof.
  induction fuel as [|fuel IH]; intros next buffer w Hinv; simpl; [lia|].
  unfold getMessageList. destruct bot; simpl; [|lia].
  destruct (remote (ctx w)) as [|reply rest]; simpl.
  { rewrite length_app. simpl. lia. }
  destruct reply as [page|e|]; simpl; try (rewrite length_app; simpl; lia).
  destruct ((length page =? 0)%nat || (count <=? length (buffer ++ page))%nat) eqn:Hstop;
    simpl.
  { rewrite length_app. simpl. lia. }
  apply orb_false_iff in Hstop. destruct Hstop as [Hne Hlt].
  apply Nat.eqb_neq in Hne. apply Nat.leb_gt in Hlt. rewrite length_app in Hlt.
  match goal with |- context [getHistory_loop fuel true channelId count ?n ?b ?w1] =>
    pose proof (IH n b w1) as Hrec
  end.
  simpl in Hrec. rewrite !length_app in Hrec. simpl in Hrec.
  assert (Hb : (length buffer + length page < count)%nat \/ buffer ++ page = [])
    by (left; exact Hlt).
  specialize (Hrec Hb). lia.
Qed.

(** X12. [getHistory(count, next)] asks the remote at most [count] times,
    and once when [count] is zero, whatever the remote answers: every page
    that does not end the loop brings at least one message. (The loop of
    [syncHistory] has no such bound.) *)
Theorem getHistory_asks_at_most_count_times (env : Env) (count : nat)
    (next : option string) (w : World) :
  (length (requested (ctx (snd (getHistory env count next w))))
   <= length (requested (ctx w)) + Nat.max 1 count)%nat.
Proof.
  unfold getHistory, bind.
  pose proof (getHistory_loop_bound (bots env (bot_key (data (self w))))
                (channelId (data (self w))) count (S count) next [] w
                (or_intror eq_refl)) as Hb.
  destruct (getHistory_loop (S count) _ _ count next [] w) as [[buffer|e|] w1];
    simpl in Hb |- *; try lia.
  destruct (adapt_requested env (rev buffer) w1) as [Hq _]. rewrite Hq. lia.
Qed.

(** ** History on demand does not look at the status *)

Lemma ignores_status_ret {A} (a : A) : ignores_status (ret a).
Proof. intros st w. reflexivity. Qed.

Lemma ignores_status_bind {A B} (m : Task A) (k : A -> Task B) :
  ignores_status m -> (forall a, ignores_status (k a)) -> ignores_status (bind m k).
Proof.
  intros Hm Hk st w. unfold bind. rewrite Hm.
  destruct (m w) as [[a|e|] w1]; simpl; try reflexivity. apply Hk.
Qed.

Lemma accept_set_status s st c :
  accept s (set_status st c) = (fst (accept s c), set_status st (snd (accept s c))).
Proof.
  unfold accept. simpl.
  destruct (truthy (assignee (data c))); simpl;
    [destruct (differs (assignee (data c)) (Session.selfId s)); simpl|];
    try destruct (truthy (Session.channelName s)); reflexivity.
Qed.

Lemma arrive_set_status s st c : arrive s (set_status st c) = set_status st (arrive s c).
Proof.
  unfold arrive. rewrite accept_set_status.
  destruct (accept s c) as [[|] c1]; reflexivity.
Qed.

Lemma arrive_all_set_status sessions st : forall c,
  arrive_all sessions (set_status st c) = set_status st (arrive_all sessions c).
Proof.
  induction sessions as [|s rest IH]; intros c; [reflexivity|].
  change (arrive_all (s :: rest) ?x) with (arrive_all rest (arrive s x)).
  rewrite arrive_set_status. apply IH.
Qed.

Lemma ignores_status_db_call : ignores_status db_call.
Proof.
  intros st w. unfold db_call. simpl.
  destruct (faults (ctx w)) as [|[e|] rest]; reflexivity.
Qed.

Lemma ignores_status_interleave : ignores_status interleave.
Proof.
  intros st w. unfold interleave. simpl.
  destruct (arrivals (ctx w)) as [|a rest]; [reflexivity|].
  simpl. rewrite arrive_all_set_status. reflexivity.
Qed.

Lemma ignores_status_awaited {A} (m : Task A) :
  ignores_status m -> ignores_status (awaited m).
Proof.
  intros Hm st w. unfold awaited. rewrite Hm.
  destruct (m w) as [settled w1]. cbn [fst snd].
  rewrite ignores_status_interleave. reflexivity.
Qed.

Lemma ignores_status_database_upsert rows : ignores_status (database_upsert rows).
Proof.
  unfold database_upsert. apply ignores_status_awaited.
  apply ignores_status_bind; [apply ignores_status_db_call|]. intros _.
  intros st w. reflexivity.
Qed.

Lemma ignores_status_adapt env buffer : ignores_status (adapt env buffer).
Proof.
  intros st w. unfold adapt. cbn [self on_self data set_status].
  destruct (Array_filter (retained env) _) as [rows|]; [|reflexivity].
  apply (ignores_status_bind (database_upsert rows) (fun _ => ret _)).
  - apply ignores_status_database_upsert.
  - intros _. apply ignores_status_ret.
Qed.

Lemma ignores_status_select desc limit : ignores_status (select desc limit).
Proof.
  intros st w. unfold select. rewrite ignores_status_db_call.
  destruct (db_call w) as [[u|e|] w1]; reflexivity.
Qed.

Lemma ignores_status_getMessageList bot channelId next :
  ignores_status (getMessageList bot channelId next).
Proof.
  intros st w. unfold getMessageList. destruct bot; [|reflexivity].
  simpl. destruct (remote (ctx w)); reflexivity.
Qed.

Lemma ignores_status_getHistory_loop bot channelId count fuel :
  forall next buffer, ignores_status (getHistory_loop fuel bot channelId count next buffer).
Proof.
  induction fuel as [|fuel IH]; intros next buffer st w; [reflexivity|].
  simpl. rewrite ignores_status_getMessageList.
  destruct (getMessageList bot channelId next w) as [[page|e|] w1]; simpl;
    try reflexivity.
  destruct ((length page =? 0)%nat || (count <=? length (buffer ++ page))%nat);
    [reflexivity|apply IH].
Qed.

Lemma ignores_status_getHistory env count next :
  ignores_status (getHistory env count next).
Proof.
  intros st w. unfold getHistory.
  apply (ignores_status_bind
           (getHistory_loop (S count) (bots env (bot_key (data (self w))))
              (channelId (data (self w))) count next [])
           (fun b => adapt env (rev b))).
  - apply ignores_status_getHistory_loop.
  - intros b. apply ignores_status_adapt.
Qed.

(** X13. [getHistory] and [getMessages] never look at the status of the
    channel: run on a channel that is SYNCING, SYNCED or FAILED they ask the
    remote for the same pages, write the same records and return the same
    result. Where the retention test can run, a failed channel is still
    written by a history request. *)
Theorem history_ignores_status (env : Env) (count : nat) (next : option string)
    (st : SyncStatus) (w : World) :
  getHistory env count next (on_self (set_status st) w)
  = (fst (getHistory env count next w),
     on_self (set_status st) (snd (getHistory env count next w)))
  /\ getMessages env count (on_self (set_status st) w)
     = (fst (getMessages env count w),
        on_self (set_status st) (snd (getMessages env count w))).
Proof.
  split; [apply ignores_status_getHistory|].
  unfold getMessages.
  apply (ignores_status_bind (select true count)); [apply ignores_status_select|].
  intros rows. destruct (length (rev rows) <? count)%nat.
  - apply ignores_status_bind; [apply ignores_status_getHistory|].
    intros h. apply ignores_status_ret.
  - apply ignores_status_ret.
Qed.

(** ** Edits and deletes *)

Lemma database_set_quiet query update s :
  faults (service_ctx s) = [] ->
  database_set query update s
  = (Resolved tt,
     mkMessageService (_channels s)
       (set_database
          (mkDatabase (set_rows query update (tbl_message (database (service_ctx s))))
             (tbl_chat_message (database (service_ctx s))))
          (service_ctx s))).
Proof.
  intros Hf. unfold database_set, service_db_call. rewrite Hf.
  destruct s; reflexivity.
Qed.

Lemma set_rows_twice (q1 q2 : Message.t -> bool) (u1 u2 : Message.t -> Message.t) rows :
  set_rows q2 u2 (set_rows q1 u1 rows)
  = map (fun r => if q1 r then (if q2 (u1 r) then u2 (u1 r) else u1 r)
                  else (if q2 r then u2 r else r)) rows.
Proof.
  unfold set_rows. rewrite map_map. apply map_ext. intros r.
  destruct (q1 r); reflexivity.
Qed.

(** X14. A delete is a soft delete and the listeners compose: with a driver
    that accepts the calls, a delete keeps every row of ['message'] (same
    ids, in the same order); a second delete of the same message gives the
    table the later delete alone gives; and an edit and a delete of the same
    message give the same table in either order, the later of the two
    setting [lastUpdated]. *)
Theorem edits_and_deletes_compose (first later : Env) (edit delete : Session.t)
    (s : MessageService) :
  faults (service_ctx s) = [] ->
  Session.messageId edit = Session.messageId delete ->
  Session.platform edit = Session.platform delete ->
  map Message.id (message_rows (onMessageDeleted first delete s))
  = map Message.id (tbl_message (database (service_ctx s)))
  /\ message_rows (onMessageDeleted later delete (snd (onMessageDeleted first delete s)))
     = message_rows (onMessageDeleted later delete s)
  /\ message_rows (onMessageDeleted later delete (snd (onMessageUpdated first edit s)))
     = message_rows (onMessageUpdated later edit (snd (onMessageDeleted first delete s))).
Proof.
  intros Hf Hid Hp.
  assert (Hq : forall r, by_message edit r = by_message delete r)
    by (intros r; unfold by_message; rewrite Hid, Hp; reflexivity).
  assert (Hdel : forall env r, by_message delete (mark_deleted env r) = by_message delete r)
    by reflexivity.
  assert (Hupd : forall env r,
            by_message delete (mark_updated env edit r) = by_message delete r)
    by reflexivity.
  unfold message_rows, onMessageDeleted, onMessageUpdated.
  rewrite !(database_set_quiet _ _ s Hf). cbn [snd].
  rewrite !database_set_quiet by exact Hf. simpl.
  split.
  { unfold set_rows. rewrite map_map. apply map_ext. intros r.
    destruct (by_message delete r); reflexivity. }
  split.
  { rewrite set_rows_twice. unfold set_rows. apply map_ext. intros r.
    rewrite Hdel. destruct (by_message delete r); reflexivity. }
  rewrite !set_rows_twice. apply map_ext. intros r.
  rewrite !Hq, Hdel, Hupd.
  destruct (by_message delete r); reflexivity.
Qed.

Lemma edits_and_deletes_compose_witness :
  map Message.deleted
    (message_rows (onMessageDeleted later_env (event "A" "m1" 995)
                     (snd (onMessageUpdated sample_env edit_event failed_service))))
  = [1; 0]
  /\ map Message.content
       (message_rows (onMessageUpdated later_env edit_event
                        (snd (onMessageDeleted sample_env (event "A" "m1" 995)
                                failed_service))))
     = ["new"; "two"]%string.
Proof.
  destruct (edits_and_deletes_compose sample_env later_env edit_event
              (event "A" "m1" 995) failed_service) as (_ & _ & H); try reflexivity.
  split; [reflexivity|]. rewrite <- H. reflexivity.
Defined.

(** ** The service after [stop()] *)

(** X15. After [stop()], [#onMessage] leaves the store, the notifications
    and the remote as they were, whatever the session and whatever the state
    of its channel. *)
Theorem stop_halts_the_writes (env : Env) (session : Session.t) (s : MessageService) :
  stopped (service_ctx (snd (onMessage env session (snd (stop s))))) = true
  /\ database (service_ctx (snd (onMessage env session (snd (stop s)))))
     = database (service_ctx s)
  /\ upserts (service_ctx (snd (onMessage env session (snd (stop s)))))
     = upserts (service_ctx s)
  /\ emitted (service_ctx (snd (onMessage env session (snd (stop s)))))
     = emitted (service_ctx s)
  /\ requested (service_ctx (snd (onMessage env session (snd (stop s)))))
     = requested (service_ctx s)
  /\ remote (service_ctx (snd (onMessage env session (snd (stop s)))))
     = remote (service_ctx s).
Proof.
  set (s' := snd (stop s)).
  assert (Hs' : stopped (service_ctx s') = true
                /\ database (service_ctx s') = database (service_ctx s)
                /\ upserts (service_ctx s') = upserts (service_ctx s)
                /\ emitted (service_ctx s') = emitted (service_ctx s)
                /\ requested (service_ctx s') = requested (service_ctx s)
                /\ remote (service_ctx s') = remote (service_ctx s))
    by (repeat split; reflexivity).
  destruct Hs' as (H0 & H1 & H2 & H3 & H4 & H5).
  destruct (queried_facts s') as (_ & Q1 & Q2 & Q3 & _ & Q4 & Q5 & Q0).
  destruct (onMessage_ends env session s') as [->|(_ & c & _ & ->)].
  - repeat split; congruence.
  - unfold delegated. cbn [service_ctx].
    rewrite (queue_halted env session (mkWorld c (service_ctx (queried s'))))
      by (right; simpl; congruence).
    cbn [snd ctx]. repeat split; congruence.
Qed.

(** ** The chat package *)

Lemma prefix_append (p url : string) :
  String.prefix p url = true <-> exists rest, url = p +:+ rest.
Proof.
  revert url. induction p as [|a p IH]; intros url.
  - split; [intros _; exists url; reflexivity|]. intros _. destruct url; reflexivity.
  - destruct url as [|b url]; simpl.
    + split; [discriminate|]. intros [rest H].
      change (EmptyString = String a (p +:+ rest)) in H. discriminate H.
    + destruct (Ascii.ascii_dec a b) as [->|Hab].
      * rewrite IH. split; intros [rest H]; exists rest.
        -- rewrite H. reflexivity.
        -- change (String b url = String b (p +:+ rest)) in H.
           injection H as H. exact H.
      * split; [discriminate|]. intros [rest H].
        change (String b url = String a (p +:+ rest)) in H.
        injection H as H1 H2. congruence.
Qed.

Lemma append_assoc (a b c : string) : (a +:+ b) +:+ c = a +:+ (b +:+ c).
Proof.
  induction a as [|x a IH]; [reflexivity|].
  change (String x ((a +:+ b) +:+ c) = String x (a +:+ (b +:+ c))).
  f_equal. exact IH.
Qed.

Lemma whitelisted_spec (whitelist : list string) (url : string) :
  whitelisted whitelist url = true
  <-> exists p rest, In p whitelist /\ url = p +:+ rest.
Proof.
  unfold whitelisted. rewrite existsb_exists. split.
  - intros (p & Hin & Hp). apply prefix_append in Hp as [rest Hr]. eauto.
  - intros (p & rest & Hin & Hr). exists p. split; [exact Hin|].
    apply prefix_append. eauto.
Qed.

Lemma proxy_requests (whitelist : list string) get url :
  snd (proxy whitelist get url) = if whitelisted whitelist url then [url] else [].
Proof.
  unfold proxy. destruct (whitelisted whitelist url); simpl; [|reflexivity].
  destruct (get url) as [body|e [[st body]|]|e]; reflexivity.
Qed.

(** X16. The route ['/chat/proxy/:url'] asks the upstream for nothing but the
    URL of the request, and only when that URL is an entry of the whitelist
    followed by some rest. *)
Theorem proxy_fetches_only_listed (whitelist : list string) (get : string -> Upstream)
    (url u : string) :
  In u (snd (proxy whitelist get url)) ->
  u = url /\ exists p rest, In p whitelist /\ url = p +:+ rest.
Proof.
  rewrite proxy_requests. destruct (whitelisted whitelist url) eqn:Hw; [|intros []].
  intros [<-|[]]. split; [reflexivity|]. apply whitelisted_spec. exact Hw.
Qed.

Lemma proxy_fetches_only_listed_witness :
  "https://gchat.qpic.cn/a.png"%string = "https://gchat.qpic.cn/a.png"%string
  /\ exists p rest, In p default_whitelist
                    /\ "https://gchat.qpic.cn/a.png"%string = p +:+ rest.
Proof.
  apply (proxy_fetches_only_listed default_whitelist (fun _ => upstream_body "png")
           "https://gchat.qpic.cn/a.png" "https://gchat.qpic.cn/a.png").
  left. reflexivity.
Defined.

(** X17. The whitelist is a list of prefixes: once the route passes a URL on
    to the upstream, it passes on every URL that continues it, whatever the
    upstream answers. *)
Theorem proxy_passes_every_continuation (whitelist : list string)
    (get get' : string -> Upstream) (url rest : string) :
  snd (proxy whitelist get url) = [url] ->
  snd (proxy whitelist get' (url +:+ rest)) = [url +:+ rest].
Proof.
  rewrite !proxy_requests. destruct (whitelisted whitelist url) eqn:Hw; [|discriminate].
  intros _. apply whitelisted_spec in Hw as (p & r & Hin & ->).
  assert (Hw' : whitelisted whitelist ((p +:+ r) +:+ rest) = true).
  { apply whitelisted_spec. exists p, (r +:+ rest). split; [exact Hin|].
    apply append_assoc. }
  rewrite Hw'. reflexivity.
Qed.

Lemma proxy_passes_every_continuation_witness :
  snd (proxy default_whitelist (fun _ => axios_error (RemoteError 0) None)
         ("https://gchat.qpic.cn/" +:+ "../x"))
  = ["https://gchat.qpic.cn/" +:+ "../x"]%string.
Proof.
  apply (proxy_passes_every_continuation default_whitelist
           (fun _ => upstream_body "ok")).
  reflexivity.
Defined.

Lemma cid_is_no_chat_key (session : Session.t) (guildId channelId : string) :
  Session.cid session <> chat_key (Session.platform session) guildId channelId.
Proof.
  unfold Session.cid, chat_key. intros H.
  induction (Session.platform session) as [|a p IH].
  - vm_compute in H. discriminate H.
  - apply IH.
    change (String a (p +:+ ":" +:+ Session.channelId session)
            = String a (p +:+ "/" +:+ guildId +:+ "/" +:+ channelId)) in H.
    injection H as H. exact H.
Qed.

Lemma onMessage_keys (env : Env) (session : Session.t) (s : MessageService) (k : string) :
  k <> Session.cid session ->
  _channels (snd (onMessage env session s)) !! k = _channels s !! k.
Proof.
  intros Hk. destruct (queried_facts s) as (Hch & _).
  destruct (onMessage_ends env session s) as [->|(_ & c & _ & ->)].
  - rewrite Hch. reflexivity.
  - unfold delegated. cbn [_channels].
    rewrite lookup_insert_ne by congruence.
    rewrite Hch. apply channel_of_other, Hk.
Qed.

(** X18. The listener of ['chat/send'] looks the channel up under
    [platform/guildId/channelId], [#onMessage] files it under
    [platform:channelId]: a session never creates the entry the listener
    reads for its platform, so where that entry was missing the listener
    still sends nothing and does not resolve; without the assets service it
    throws a [TypeError]. *)
Theorem chat_send_misses_the_session_channel (env : Env)
    (assets : option (string -> Outcome string))
    (content guildId channelId : string) (session : Session.t) (s : MessageService) :
  _channels s !! chat_key (Session.platform session) guildId channelId = None ->
  let r := chat_send env assets content (Session.platform session) channelId guildId
             (snd (onMessage env session s)) in
  snd r = [] /\ fst r <> Resolved tt /\ (assets = None -> fst r = Rejected TypeError).
Proof.
  intros Hnone r. subst r. unfold chat_send.
  rewrite onMessage_keys by (apply not_eq_sym, cid_is_no_chat_key).
  rewrite Hnone.
  destruct assets as [transform|].
  - destruct (transform content); repeat split; try discriminate.
  - repeat split; discriminate.
Qed.

Lemma chat_send_misses_the_session_channel_witness :
  let r := chat_send sample_env None "hi" "p" "c" "g"
             (snd (onMessage sample_env (event "A" "m1" 990) idle_service)) in
  snd r = [] /\ fst r <> Resolved tt
  /\ (@None (string -> Outcome string) = None -> fst r = Rejected TypeError).
Proof.
  apply (chat_send_misses_the_session_channel sample_env None "hi" "g" "c"
           (event "A" "m1" 990) idle_service).
  reflexivity.
Defined.
